(** * final-ride: the content-protection and chunked-transfer core

    A shallow embedding of [internal/finalride] (chunking, cipher framing,
    the metadata record) and of the download and upload paths of
    [cmd/cli/main.go], with the properties of the specification stated
    and settled against it. *)

From Stdlib Require Import ZArith Lia Strings.Byte Ascii String.
From stdpp Require Import base option list gmap fin_maps strings sorting.

Local Open Scope Z_scope.

(* ===================================================================== *)
(** * Go primitives used by the code *)
(* ===================================================================== *)

(** Byte slices are lists of bytes, Go strings are Rocq strings (both are
    byte sequences). *)
Abbreviation bytes := (list Byte.byte).

(** How a Go call ends: it returns, it panics (a run-time error), or the
    model has run out of fuel before the call came to an end. *)
Inductive outcome (A : Type) : Type :=
| Returned (a : A)
| Panicked
| OutOfFuel.
Arguments Returned {A} a.
Arguments Panicked {A}.
Arguments OutOfFuel {A}.

Module Go.

(** ** The 64-bit [int] *)

Definition int_min : Z := - 2 ^ 63.
Definition int_max : Z := 2 ^ 63 - 1.

Definition in_int (z : Z) : Prop := int_min <= z <= int_max.

(** Two's complement wrap-around of signed 64-bit arithmetic. *)
Definition wrap (z : Z) : Z := (z + 2 ^ 63) mod 2 ^ 64 - 2 ^ 63.

(** [len(s)] as an [int]. *)
Definition len {A} (s : list A) : Z := Z.of_nat (length s).

(** ** Slice expressions [s[lo:hi]]

    A slice expression panics unless [0 <= lo <= hi <= cap(s)]; the code
    below never asks for [hi] beyond [len(s)], so the model takes the
    capacity to be the length. *)
Definition slice {A} (s : list A) (lo hi : Z) : option (list A) :=
  if (0 <=? lo) && (lo <=? hi) && (hi <=? len s)
  then Some (take (Z.to_nat (hi - lo)) (drop (Z.to_nat lo) s))
  else None.

(** ** [strconv.Itoa] and [fmt.Sprintf("%d", n)] *)

Definition digit_char (d : Z) : ascii := ascii_of_N (48 + Z.to_N d).

(** Decimal digits of a magnitude, written from the least significant
    digit backwards in front of [acc]; an [int] has at most 19 digits. *)
Fixpoint format_digits (fuel : nat) (n : Z) (acc : string) : string :=
  match fuel with
  | O => acc
  | S fuel' =>
      let acc' := String (digit_char (n mod 10)) acc in
      if n <? 10 then acc' else format_digits fuel' (n / 10) acc'
  end.

Definition Itoa (i : Z) : string :=
  if i <? 0 then String "-" (format_digits 20 (- i) "")
  else format_digits 20 i "".

(** ** [strconv.Atoi]

    [Atoi(s)] is [ParseInt(s, 10, 0)] narrowed to [int]; the short-input
    fast path of [Atoi] computes the same value and the same error. *)

Inductive NumError : Type := ErrSyntax | ErrRange.

Definition digit_val (c : ascii) : option Z :=
  let n := Z.of_N (N_of_ascii c) in
  if (48 <=? n) && (n <=? 57) then Some (n - 48) else None.

Definition uint64_max : Z := 2 ^ 64 - 1.

(** The digit loop of [ParseUint] in base 10 on 64 bits: a character that
    is not a digit is a syntax error, an overflow stops the scan at once
    with the largest value and a range error. *)
Fixpoint ParseUint_loop (n : Z) (s : string) : Z * option NumError :=
  match s with
  | EmptyString => (n, None)
  | String c s' =>
      match digit_val c with
      | None => (0, Some ErrSyntax)
      | Some d =>
          if n >=? uint64_max / 10 + 1 then (uint64_max, Some ErrRange)
          else
            let n1 := n * 10 + d in
            if n1 >? uint64_max then (uint64_max, Some ErrRange)
            else ParseUint_loop n1 s'
      end
  end.

Definition ParseUint (s : string) : Z * option NumError :=
  match s with
  | EmptyString => (0, Some ErrSyntax)
  | _ => ParseUint_loop 0 s
  end.

(** The sign and range handling of [ParseInt] around [ParseUint]. *)
Definition ParseInt_finish (neg : bool) (r : Z * option NumError)
  : Z * option NumError :=
  match r with
  | (_, Some ErrSyntax) => (0, Some ErrSyntax)
  | (un, _) =>
      if negb neg && (un >=? 2 ^ 63) then (2 ^ 63 - 1, Some ErrRange)
      else if neg && (un >? 2 ^ 63) then (- 2 ^ 63, Some ErrRange)
      else (if neg then - un else un, None)
  end.

Definition Atoi (s : string) : Z * option NumError :=
  match s with
  | EmptyString => (0, Some ErrSyntax)
  | String c rest =>
      if Ascii.eqb c "+" then ParseInt_finish false (ParseUint rest)
      else if Ascii.eqb c "-" then ParseInt_finish true (ParseUint rest)
      else ParseInt_finish false (ParseUint s)
  end.

(** ** [sort.Ints]: the ascending rearrangement of the slice *)
Definition sort_Ints (keys : list Z) : list Z := merge_sort Z.le keys.

(** ** [fmt.Sprintf("%x", b)]: two lower-case hex digits per byte *)

Definition hex_digit (n : N) : ascii :=
  if (n <? 10)%N then ascii_of_N (48 + n) else ascii_of_N (87 + n).

Fixpoint Sprintf_x (b : bytes) : string :=
  match b with
  | [] => EmptyString
  | x :: b' =>
      let n := Byte.to_N x in
      String (hex_digit (n / 16)) (String (hex_digit (n mod 16)) (Sprintf_x b'))
  end.

(** ** Ranging over a map

    [for k := range m] visits every key of [m] once, in an order the
    language leaves unspecified: an iteration order of [m] is any
    arrangement of its keys. *)
Definition range_order {V} (m : gmap string V) (ks : list string) : Prop :=
  ks ≡ₚ (map_to_list m).*1.

(** A Go map read [m[k]]: the zero value when the key is absent. *)
Definition index_bytes (m : gmap string bytes) (k : string) : bytes :=
  default [] (m !! k).

Definition index_string (m : gmap string string) (k : string) : string :=
  default EmptyString (m !! k).

End Go.

(* ===================================================================== *)
(** * The chunker ([SplitIntoChunks], [ReassembleChunks]) *)
(* ===================================================================== *)

Section Chunker.

(** [crypto/sha256.Sum256], taken as given. *)
Variable Sum256 : bytes -> bytes.

(** The [for] loop of [SplitIntoChunks]; [fuel] bounds the number of
    iterations the model follows. *)
Fixpoint SplitIntoChunks_loop (fuel : nat) (data : bytes) (chunkSize : Z)
    (i chunkNum : Z) (chunks : gmap string bytes) (hashes : gmap string string)
  : outcome (gmap string bytes * gmap string string) :=
  match fuel with
  | O => OutOfFuel
  | S fuel' =>
      if i <? Go.len data then
        let end_ := Go.wrap (i + chunkSize) in
        let end_ := if end_ >? Go.len data then Go.len data else end_ in
        match Go.slice data i end_ with
        | None => Panicked
        | Some chunk =>
            let chunkKey := Go.Itoa chunkNum in
            let chunks := <[chunkKey := chunk]> chunks in
            let hash := Sum256 chunk in
            let hashes := <[chunkKey := Go.Sprintf_x hash]> hashes in
            SplitIntoChunks_loop fuel' data chunkSize
              (Go.wrap (i + chunkSize)) (Go.wrap (chunkNum + 1)) chunks hashes
        end
      else Returned (chunks, hashes)
  end.

Definition SplitIntoChunks (fuel : nat) (data : bytes) (chunkSize : Z)
  : outcome (gmap string bytes * gmap string string) :=
  SplitIntoChunks_loop fuel data chunkSize 0 1 ∅ ∅.

(** What the split is expected to hand back: the payload cut left to
    right in [s]-sized windows, the [k]-th window (counting from 1) filed
    under the decimal numeral of [k], and its digest under the same key. *)
Definition window (p : bytes) (s : Z) (k : Z) : bytes :=
  take (Z.to_nat s) (drop (Z.to_nat ((k - 1) * s)) p).

Definition num_windows (p : bytes) (s : Z) : Z := (Go.len p + s - 1) / s.

Definition expected_chunks (p : bytes) (s : Z) : gmap string bytes :=
  list_to_map ((fun k => (Go.Itoa k, window p s k)) <$> seqZ 1 (num_windows p s)).

Definition expected_hashes (p : bytes) (s : Z) : gmap string string :=
  list_to_map ((fun k => (Go.Itoa k, Go.Sprintf_x (Sum256 (window p s k))))
                 <$> seqZ 1 (num_windows p s)).

End Chunker.

(** [ReassembleChunks]; [order] is the order in which [range chunks]
    hands out the keys. *)
Definition ReassembleChunks (order : list string) (chunks : gmap string bytes)
  : bytes :=
  let keys := foldl (fun keys k => keys ++ [fst (Go.Atoi k)]) [] order in
  let keys := Go.sort_Ints keys in
  foldl (fun result k => result ++ Go.index_bytes chunks (Go.Itoa k)) [] keys.

(* ===================================================================== *)
(** * Errors *)
(* ===================================================================== *)

(** The Go [error] values that reach the code. *)
Inductive error : Type :=
| ErrEntropy                  (** the random source could not fill the buffer *)
| KeySizeError (n : nat)      (** [crypto/aes: invalid key size n] *)
| ErrBlockSize                (** [cipher.NewGCM] on a block that is not 128 bits wide *)
| ErrTooShort                 (** ["encrypted data too short"] *)
| ErrOpen                     (** [cipher: message authentication failed] *)
| ErrBase64                   (** [base64.CorruptInputError] *)
| ErrSwarm                    (** the gateway call failed *)
| ErrUnmarshal                (** [json.UnmarshalTypeError] *)
| ErrWriteFile.               (** [os.WriteFile] failed *)

Inductive result (A : Type) : Type :=
| Ok (a : A)
| Err (e : error).
Arguments Ok {A} a.
Arguments Err {A} e.

#[global] Instance result_bind : MBind result := fun A B f r =>
  match r with
  | Ok a => f a
  | Err e => Err e
  end.

#[global] Instance result_ret : MRet result := fun A a => Ok a.

(* ===================================================================== *)
(** * The cipher ([EncryptData], [DecryptData]) *)
(* ===================================================================== *)

(** The AEAD that [cipher.NewGCM] builds over an AES block, with 12-byte
    nonces and 16-byte tags, used without additional data: [Seal key nonce
    plaintext] is the ciphertext followed by the tag, [Open key nonce
    ciphertext] is the plaintext, or nothing when the tag does not verify. *)
Class GCM : Type := {
  Seal : bytes -> bytes -> bytes -> bytes;
  Open : bytes -> bytes -> bytes -> option bytes
}.

(** [io.ReadFull(rand.Reader, buf)]: [rnd] is what the random source is
    about to deliver; the call fills [n] bytes or fails. *)
Definition ReadFull (rnd : bytes) (n : nat) : result bytes :=
  if decide (n <= length rnd)%nat then Ok (take n rnd) else Err ErrEntropy.

(** [GenerateKey]. *)
Definition GenerateKey (rnd : bytes) : result bytes := ReadFull rnd 32.

(** [aes.NewCipher]: the key must have 16, 24 or 32 bytes; the block is
    known by its key. *)
Definition aes_NewCipher (key : bytes) : result bytes :=
  let k := length key in
  if (k =? 16)%nat || (k =? 24)%nat || (k =? 32)%nat then Ok key
  else Err (KeySizeError k).

Definition aes_BlockSize : nat := 16.

(** [cipher.NewGCM]: refuses a block cipher whose block size is not 16. *)
Definition cipher_NewGCM (block : bytes) : result bytes :=
  if (aes_BlockSize =? 16)%nat then Ok block else Err ErrBlockSize.

Section Cipher.

Context {aead : GCM}.

Definition EncryptData (rnd : bytes) (plaintext key : bytes) : result bytes :=
  block ← aes_NewCipher key;
  nonce ← ReadFull rnd 12;
  aesgcm ← cipher_NewGCM block;
  let ciphertext := Seal aesgcm nonce plaintext in
  Ok (nonce ++ ciphertext).

(** After the length test both slice expressions, [encryptedData[:12]]
    and [encryptedData[12:]], are within bounds. *)
Definition DecryptData (encryptedData key : bytes) : result bytes :=
  if Go.len encryptedData <? 12 then Err ErrTooShort
  else
    block ← aes_NewCipher key;
    aesgcm ← cipher_NewGCM block;
    let nonce := take 12 encryptedData in
    let ciphertext := drop 12 encryptedData in
    match Open aesgcm nonce ciphertext with
    | Some plaintext => Ok plaintext
    | None => Err ErrOpen
    end.

End Cipher.

(** An AEAD that hides nothing (the plaintext followed by a tag of
    sixteen zero bytes, which [Open] checks), to run the definitions on
    concrete inputs. *)
Definition plain_Seal (key nonce plaintext : bytes) : bytes :=
  plaintext ++ repeat x00 16.

Definition plain_Open (key nonce ciphertext : bytes) : option bytes :=
  if decide (16 <= length ciphertext)%nat then
    let n := (length ciphertext - 16)%nat in
    if forallb (Byte.eqb x00) (drop n ciphertext)
    then Some (take n ciphertext)
    else None
  else None.

Definition plain_gcm : GCM := {| Seal := plain_Seal; Open := plain_Open |}.

(* ===================================================================== *)
(** * The metadata record and its JSON form *)
(* ===================================================================== *)

(** [Metadata] of [internal/finalride/types.go]. A nil map and an empty
    map behave alike wherever the program uses them ([len], [range],
    indexing, [omitempty]); both are the empty [gmap]. *)
Record Metadata : Type := {
  Filename : string;                 (* json:"filename" *)
  Encrypted : bool;                  (* json:"encrypted" *)
  Key : string;                      (* json:"key,omitempty" *)
  Chunked : bool;                    (* json:"chunked" *)
  FileID : string;                   (* json:"file_id,omitempty" *)
  ChunkIDs : gmap string string;     (* json:"chunk_ids,omitempty" *)
  ChunkHashes : gmap string string;  (* json:"chunk_hashes,omitempty" *)
  FileHash : string                  (* json:"file_hash,omitempty" *)
}.

(** The zero value of the struct. *)
Definition Metadata_zero : Metadata :=
  {| Filename := ""; Encrypted := false; Key := ""; Chunked := false;
     FileID := ""; ChunkIDs := ∅; ChunkHashes := ∅; FileHash := "" |}.

Module Json.

(** A JSON document; the members of an object in the order of the text,
    strings as the byte strings a decoder hands out. *)
#[warnings="-register-all"] Inductive json : Type :=
| JNull
| JBool (b : bool)
| JNumber (literal : string)
| JString (s : string)
| JArray (items : list json)
| JObject (members : list (string * json)).

(** ** Strings on the way out

    The encoder writes a string as valid UTF-8: every byte that does not
    start a well-formed UTF-8 sequence is written as U+FFFD, which reads
    back as the three bytes EF BF BD. [written s] is what a decoder reads
    back from what the encoder wrote for [s]. *)

Definition between (lo hi : N) (c : ascii) : bool :=
  let n := N_of_ascii c in ((lo <=? n) && (n <=? hi))%N.

Definition continuation (c : ascii) : bool := between 128 191 c.

Definition two_bytes (c0 c1 : ascii) : bool :=
  between 194 223 c0 && continuation c1.

Definition three_bytes (c0 c1 c2 : ascii) : bool :=
  (between 224 224 c0 && between 160 191 c1
   || between 225 236 c0 && continuation c1
   || between 237 237 c0 && between 128 159 c1
   || between 238 239 c0 && continuation c1)
  && continuation c2.

Definition four_bytes (c0 c1 c2 c3 : ascii) : bool :=
  (between 240 240 c0 && between 144 191 c1
   || between 241 243 c0 && continuation c1
   || between 244 244 c0 && between 128 143 c1)
  && continuation c2 && continuation c3.

Definition replacement (rest : string) : string :=
  String (ascii_of_N 239) (String (ascii_of_N 191) (String (ascii_of_N 189) rest)).

Fixpoint written (s : string) : string :=
  match s with
  | EmptyString => EmptyString
  | String c0 rest =>
      if between 0 127 c0 then String c0 (written rest)
      else
        match rest with
        | String c1 rest1 =>
            if two_bytes c0 c1 then String c0 (String c1 (written rest1))
            else
              match rest1 with
              | String c2 rest2 =>
                  if three_bytes c0 c1 c2
                  then String c0 (String c1 (String c2 (written rest2)))
                  else
                    match rest2 with
                    | String c3 rest3 =>
                        if four_bytes c0 c1 c2 c3
                        then String c0 (String c1 (String c2
                               (String c3 (written rest3))))
                        else replacement (written rest)
                    | EmptyString => replacement (written rest)
                    end
              | EmptyString => replacement (written rest)
              end
        | EmptyString => replacement (written rest)
        end
  end.

(** ** [json.Marshal] of a [Metadata] *)

(** A field tagged [omitempty] is left out when its value is empty: the
    empty string, a map without entries. *)
Definition omitempty_string (name value : string) : list (string * json) :=
  if decide (value = EmptyString) then []
  else [(name, JString (written value))].

(** A map is written as an object, its keys in ascending byte order. *)
Definition key_le (a b : string * string) : Prop := String.leb a.1 b.1 = true.

#[global] Instance key_le_dec : RelDecision key_le.
Proof. intros a b. unfold key_le. apply _. Defined.

Definition marshal_map (m : gmap string string) : json :=
  JObject ((fun kv => (written kv.1, JString (written kv.2)))
             <$> merge_sort key_le (map_to_list m)).

Definition omitempty_map (name : string) (m : gmap string string)
  : list (string * json) :=
  if decide (m = ∅) then [] else [(name, marshal_map m)].

Definition Marshal (md : Metadata) : json :=
  JObject
    ([("filename"%string, JString (written (Filename md)));
      ("encrypted"%string, JBool (Encrypted md))]
     ++ omitempty_string "key" (Key md)
     ++ [("chunked"%string, JBool (Chunked md))]
     ++ omitempty_string "file_id" (FileID md)
     ++ omitempty_map "chunk_ids" (ChunkIDs md)
     ++ omitempty_map "chunk_hashes" (ChunkHashes md)
     ++ omitempty_string "file_hash" (FileHash md)).

(** ** [json.Unmarshal] into a [Metadata]

    Members are taken in order and stored in the field that carries the
    name (the real decoder also accepts a name that differs in letter
    case only); other members are skipped; [null] leaves a string or a
    bool as it is and empties a map; a value of the wrong kind is an
    [UnmarshalTypeError], on which the callers give up. *)

Definition unmarshal_string (v : json) (old : string) : result string :=
  match v with
  | JString s => Ok s
  | JNull => Ok old
  | _ => Err ErrUnmarshal
  end.

Definition unmarshal_bool (v : json) (old : bool) : result bool :=
  match v with
  | JBool b => Ok b
  | JNull => Ok old
  | _ => Err ErrUnmarshal
  end.

(** A map field keeps the entries it has and takes the members one by
    one, each value decoded into a fresh string. *)
Definition unmarshal_map (v : json) (old : gmap string string)
  : result (gmap string string) :=
  match v with
  | JObject members =>
      foldl (fun acc kv =>
               m ← acc;
               s ← unmarshal_string kv.2 EmptyString;
               Ok (<[kv.1 := s]> m))
            (Ok old) members
  | JNull => Ok ∅
  | _ => Err ErrUnmarshal
  end.

Definition set_field (md : Metadata) (name : string) (v : json)
  : result Metadata :=
  let '{| Filename := fn; Encrypted := en; Key := ky; Chunked := ch;
          FileID := fi; ChunkIDs := ci; ChunkHashes := chs;
          FileHash := fh |} := md in
  if String.eqb name "filename" then
    s ← unmarshal_string v fn;
    Ok {| Filename := s; Encrypted := en; Key := ky; Chunked := ch;
          FileID := fi; ChunkIDs := ci; ChunkHashes := chs; FileHash := fh |}
  else if String.eqb name "encrypted" then
    b ← unmarshal_bool v en;
    Ok {| Filename := fn; Encrypted := b; Key := ky; Chunked := ch;
          FileID := fi; ChunkIDs := ci; ChunkHashes := chs; FileHash := fh |}
  else if String.eqb name "key" then
    s ← unmarshal_string v ky;
    Ok {| Filename := fn; Encrypted := en; Key := s; Chunked := ch;
          FileID := fi; ChunkIDs := ci; ChunkHashes := chs; FileHash := fh |}
  else if String.eqb name "chunked" then
    b ← unmarshal_bool v ch;
    Ok {| Filename := fn; Encrypted := en; Key := ky; Chunked := b;
          FileID := fi; ChunkIDs := ci; ChunkHashes := chs; FileHash := fh |}
  else if String.eqb name "file_id" then
    s ← unmarshal_string v fi;
    Ok {| Filename := fn; Encrypted := en; Key := ky; Chunked := ch;
          FileID := s; ChunkIDs := ci; ChunkHashes := chs; FileHash := fh |}
  else if String.eqb name "chunk_ids" then
    m ← unmarshal_map v ci;
    Ok {| Filename := fn; Encrypted := en; Key := ky; Chunked := ch;
          FileID := fi; ChunkIDs := m; ChunkHashes := chs; FileHash := fh |}
  else if String.eqb name "chunk_hashes" then
    m ← unmarshal_map v chs;
    Ok {| Filename := fn; Encrypted := en; Key := ky; Chunked := ch;
          FileID := fi; ChunkIDs := ci; ChunkHashes := m; FileHash := fh |}
  else if String.eqb name "file_hash" then
    s ← unmarshal_string v fh;
    Ok {| Filename := fn; Encrypted := en; Key := ky; Chunked := ch;
          FileID := fi; ChunkIDs := ci; ChunkHashes := chs; FileHash := s |}
  else Ok md.

Definition Unmarshal (doc : json) (md : Metadata) : result Metadata :=
  match doc with
  | JObject members =>
      foldl (fun acc kv => md ← acc; set_field md kv.1 kv.2) (Ok md) members
  | JNull => Ok md
  | _ => Err ErrUnmarshal
  end.

(** Whether the serialized form has a member of that name. *)
Definition has_member (name : string) (doc : json) : bool :=
  match doc with
  | JObject members => existsb (fun kv => String.eqb kv.1 name) members
  | _ => false
  end.

(** Every string of the record is valid UTF-8: the encoder writes it
    unchanged. *)
Definition strings_valid (md : Metadata) : Prop :=
  written (Filename md) = Filename md /\
  written (Key md) = Key md /\
  written (FileID md) = FileID md /\
  written (FileHash md) = FileHash md /\
  map_Forall (fun k v => written k = k /\ written v = v) (ChunkIDs md) /\
  map_Forall (fun k v => written k = k /\ written v = v) (ChunkHashes md).

End Json.

(* ===================================================================== *)
(** * The command-line tool ([cmd/cli/main.go]) *)
(* ===================================================================== *)

(** What the program does to the outside world, in the order it does it. *)
Inductive event : Type :=
| EvUpload (data : bytes)                  (** [UploadToSwarm] *)
| EvFetch (reference : string)             (** [DownloadFromSwarm] *)
| EvWriteFile (name : string) (data : bytes).

(** The ways a run stops early: the [log.Fatalf] calls of [main], a
    run-time panic, and the model running out of fuel. *)
Inductive fatal : Type :=
| FailedToGenerateKey (e : error)
| EncryptionFailed (e : error)
| FailedToUploadChunk (k : string) (e : error)
| FailedToUploadFile (e : error)
| FailedToUploadMetadata (e : error)
| FailedToDownloadChunk (k : string) (e : error)
| ChunkIntegrityFailed (k : string)
| FailedToDownloadFile (e : error)
| FileIntegrityFailed
| FailedToDecodeKey (e : error)
| DecryptionFailed (e : error)
| FailedToSaveFile (e : error)
| RuntimePanic
| NoFuel.

Inductive exit (A : Type) : Type :=
| Done (a : A)
| Fatal (f : fatal).
Arguments Done {A} a.
Arguments Fatal {A} f.

(** A step of the program: from the events so far to the events after
    it, and how it ended. *)
Definition prog (A : Type) : Type := list event -> list event * exit A.

Definition ret {A} (a : A) : prog A := fun tr => (tr, Done a).

Definition fatalf {A} (f : fatal) : prog A := fun tr => (tr, Fatal f).

Definition bind {A B} (m : prog A) (k : A -> prog B) : prog B := fun tr =>
  match m tr with
  | (tr', Done a) => k a tr'
  | (tr', Fatal f) => (tr', Fatal f)
  end.

#[global] Instance prog_bind : MBind prog := fun A B k m => bind m k.

Section Cli.

Context {aead : GCM}.

(** The library calls and the outside world, taken as given: SHA-256,
    base64, the JSON text of a document, the gateway (whose answer may
    depend on everything that happened before) and the file system. *)
Variable Sum256 : bytes -> bytes.
Variable base64_EncodeToString : bytes -> string.
Variable base64_DecodeString : string -> result bytes.
Variable json_text : Json.json -> bytes.
Variable swarm_post : list event -> bytes -> result string.
Variable swarm_get : list event -> string -> result bytes.
Variable os_WriteFile : list event -> string -> bytes -> option error.

Definition UploadToSwarm (data : bytes) : prog (result string) := fun tr =>
  (tr ++ [EvUpload data], Done (swarm_post tr data)).

Definition DownloadFromSwarm (reference : string) : prog (result bytes) := fun tr =>
  (tr ++ [EvFetch reference], Done (swarm_get tr reference)).

Definition WriteFile (name : string) (data : bytes) : prog (option error) := fun tr =>
  (tr ++ [EvWriteFile name data], Done (os_WriteFile tr name data)).

(** ** [download], from the parsed metadata on *)

(** [for k, reference := range metadata.ChunkIDs], the keys coming in the
    order [order]. *)
Fixpoint download_chunks (order : list string) (metadata : Metadata)
    (downloadedChunks : gmap string bytes) : prog (gmap string bytes) :=
  match order with
  | [] => ret downloadedChunks
  | k :: order' =>
      let reference := Go.index_string (ChunkIDs metadata) k in
      r ← DownloadFromSwarm reference;
      match r with
      | Err e => fatalf (FailedToDownloadChunk k e)
      | Ok chunkData =>
          let hash := Sum256 chunkData in
          let expectedHash := Go.index_string (ChunkHashes metadata) k in
          if decide (expectedHash <> Go.Sprintf_x hash)
          then fatalf (ChunkIntegrityFailed k)
          else download_chunks order' metadata (<[k := chunkData]> downloadedChunks)
      end
  end.

(** [order] is the order of the [range] over [metadata.ChunkIDs],
    [order'] the order of the [range] inside [ReassembleChunks]. *)
Definition download (order order' : list string) (metadata : Metadata)
  : prog unit :=
  downloadedData ←
    (if Chunked metadata then
       downloadedChunks ← download_chunks order metadata ∅;
       ret (ReassembleChunks order' downloadedChunks)
     else
       r ← DownloadFromSwarm (FileID metadata);
       match r with
       | Err e => fatalf (FailedToDownloadFile e)
       | Ok downloadedData =>
           let hash := Sum256 downloadedData in
           if decide (FileHash metadata <> Go.Sprintf_x hash)
           then fatalf FileIntegrityFailed
           else ret downloadedData
       end);
  finalData ←
    (if Encrypted metadata then
       match base64_DecodeString (Key metadata) with
       | Err e => fatalf (FailedToDecodeKey e)
       | Ok encryptionKey =>
           match DecryptData downloadedData encryptionKey with
           | Err e => fatalf (DecryptionFailed e)
           | Ok finalData => ret finalData
           end
       end
     else ret downloadedData);
  w ← WriteFile (Filename metadata) finalData;
  match w with
  | Some e => fatalf (FailedToSaveFile e)
  | None => ret tt
  end.

(** ** [upload] *)

(** [for k, chunk := range chunks]. *)
Fixpoint upload_chunks (order : list string) (chunks : gmap string bytes)
    (chunkIDs : gmap string string) : prog (gmap string string) :=
  match order with
  | [] => ret chunkIDs
  | k :: order' =>
      let chunk := Go.index_bytes chunks k in
      r ← UploadToSwarm chunk;
      match r with
      | Err e => fatalf (FailedToUploadChunk k e)
      | Ok ref => upload_chunks order' chunks (<[k := ref]> chunkIDs)
      end
  end.

(** [rnd] is what the random source delivers during the run, [fuel] the
    fuel of the split, [order] the order of the [range] over the pieces;
    the result is the metadata and the reference of its JSON text. *)
Definition upload (rnd : bytes) (fuel : nat) (order : list string)
    (filename : string) (plaintext : bytes) (shouldEncrypt : bool)
    (chunkSizeBytes : Z) : prog (Metadata * string) :=
  let metadata := {| Filename := filename; Encrypted := shouldEncrypt;
                     Key := ""; Chunked := false; FileID := "";
                     ChunkIDs := ∅; ChunkHashes := ∅; FileHash := "" |} in
  '(metadata, dataToUpload) ←
    (if shouldEncrypt then
       match GenerateKey rnd with
       | Err e => fatalf (FailedToGenerateKey e)
       | Ok encryptionKey =>
           match EncryptData (drop 32 rnd) plaintext encryptionKey with
           | Err e => fatalf (EncryptionFailed e)
           | Ok dataToUpload =>
               ret ({| Filename := Filename metadata;
                       Encrypted := Encrypted metadata;
                       Key := base64_EncodeToString encryptionKey;
                       Chunked := Chunked metadata;
                       FileID := FileID metadata;
                       ChunkIDs := ChunkIDs metadata;
                       ChunkHashes := ChunkHashes metadata;
                       FileHash := FileHash metadata |}, dataToUpload)
           end
       end
     else ret (metadata, plaintext));
  metadata ←
    (if Go.len dataToUpload >? chunkSizeBytes then
       match SplitIntoChunks Sum256 fuel dataToUpload chunkSizeBytes with
       | Panicked => fatalf RuntimePanic
       | OutOfFuel => fatalf NoFuel
       | Returned (chunks, chunkHashes) =>
           chunkIDs ← upload_chunks order chunks ∅;
           ret {| Filename := Filename metadata;
                  Encrypted := Encrypted metadata;
                  Key := Key metadata;
                  Chunked := true;
                  FileID := FileID metadata;
                  ChunkIDs := chunkIDs;
                  ChunkHashes := chunkHashes;
                  FileHash := FileHash metadata |}
       end
     else
       r ← UploadToSwarm dataToUpload;
       match r with
       | Err e => fatalf (FailedToUploadFile e)
       | Ok fileID =>
           let hash := Sum256 dataToUpload in
           ret {| Filename := Filename metadata;
                  Encrypted := Encrypted metadata;
                  Key := Key metadata;
                  Chunked := false;
                  FileID := fileID;
                  ChunkIDs := ChunkIDs metadata;
                  ChunkHashes := ChunkHashes metadata;
                  FileHash := Go.Sprintf_x hash |}
       end);
  let metadataJSON := json_text (Json.Marshal metadata) in
  r ← UploadToSwarm metadataJSON;
  match r with
  | Err e => fatalf (FailedToUploadMetadata e)
  | Ok metadataCID => ret (metadata, metadataCID)
  end.

End Cli.

(** ** The validation the specification asks for

    The program has no such check; these two definitions follow the
    sentence of the specification, to compare the program with. *)

(** A manifest the specification calls malformed: chunked without piece
    references, or encrypted without key material. *)
Definition MalformedManifest (metadata : Metadata) : bool :=
  (Chunked metadata && bool_decide (ChunkIDs metadata = ∅))
  || (Encrypted metadata && bool_decide (Key metadata = EmptyString)).


(** ** A small world to run the tool in

    A gateway that hands out the content itself as the reference and gives
    it back on request, a key encoding that writes the bytes as they are, a
    file system that never fails, and no JSON text: enough to run [upload]
    and [download] on concrete inputs. *)
Definition echo_post (tr : list event) (data : bytes) : result string :=
  Ok (string_of_list_byte data).

Definition echo_get (tr : list event) (reference : string) : result bytes :=
  Ok (list_byte_of_string reference).

Definition raw_EncodeToString (b : bytes) : string := string_of_list_byte b.

Definition raw_DecodeString (s : string) : result bytes :=
  Ok (list_byte_of_string s).

Definition write_ok (tr : list event) (name : string) (data : bytes)
  : option error := None.

Definition no_text (doc : Json.json) : bytes := [].

(** A run of [upload] in that world: five bytes, not encrypted, cut in
    pieces of two bytes, with the identity for SHA-256; and the manifest it
    builds. *)
Definition sample_upload : list event * exit (Metadata * string) :=
  upload (aead := plain_gcm) (fun b => b) raw_EncodeToString no_text echo_post
    [] 4 ["3"; "1"; "2"]%string "f" [x01; x02; x03; x04; x05] false 2 [].

Definition sample_metadata : Metadata :=
  match sample_upload with
  | (_, Done (md, _)) => md
  | _ => Metadata_zero
  end.

(** [chunkSizeBytes := config.ChunkSizeMB * 1024 * 1024] of [main], in
    64-bit arithmetic. *)
Definition chunkSizeBytes_of (ChunkSizeMB : Z) : Z :=
  Go.wrap (Go.wrap (ChunkSizeMB * 1024) * 1024).

(* ===================================================================== *)
(** * The gateway calls ([internal/finalride/swarm.go]) *)
(* ===================================================================== *)

Module Swarm.

(** What the code reads of an [http.Response]: the status code, and what
    reading the body to its end gives. *)
Record Response : Type := {
  StatusCode : Z;
  Body : result bytes;
}.

Definition StatusOK : Z := 200.
Definition StatusCreated : Z := 201.

(** Decoding a document into [struct { Reference string `json:"reference"` }],
    by the rules of [Json.Unmarshal]: members in order, the member named
    [reference] stored, the others skipped. *)
Definition decode_reference (doc : Json.json) : result string :=
  match doc with
  | Json.JObject members =>
      foldl (fun acc kv =>
               r ← acc;
               if String.eqb kv.1 "reference"
               then Json.unmarshal_string kv.2 r
               else Ok r)
            (Ok EmptyString) members
  | Json.JNull => Ok EmptyString
  | _ => Err ErrUnmarshal
  end.

Section Gateway.

(** [http.Post url contentType body], [http.Get url], and the first JSON
    value of a text ([json.NewDecoder(r).Decode]). *)
Variable http_Post : string -> string -> bytes -> result Response.
Variable http_Get : string -> result Response.
Variable json_value : bytes -> result Json.json.

Definition UploadToSwarm (data : bytes) (apiEndpoint : string)
  : result string :=
  resp ← http_Post (apiEndpoint +:+ "/bzz") "application/octet-stream" data;
  if negb (StatusCode resp =? StatusCreated) then Err ErrSwarm
  else
    text ← Body resp;
    doc ← json_value text;
    response ← decode_reference doc;
    Ok response.

Definition DownloadFromSwarm (reference apiEndpoint : string)
  : result bytes :=
  resp ← http_Get (apiEndpoint +:+ "/bzz/" +:+ reference);
  if negb (StatusCode resp =? StatusOK) then Err ErrSwarm
  else
    data ← Body resp;
    Ok data.

End Gateway.

End Swarm.

(* ===================================================================== *)
(** * The arguments of the command line ([cmd/cli/main.go]) *)
(* ===================================================================== *)

(** ** [strings.HasPrefix], [strings.Contains], [strings.Split] *)

Module Strs.

Definition HasPrefix (s prefix : string) : bool := String.prefix prefix s.

Fixpoint skip (n : nat) (s : string) : string :=
  match n, s with
  | S n', String _ s' => skip n' s'
  | _, _ => s
  end.

(** The text before and the text after the first place where [sep]
    stands in [s]: [s[:i]] and [s[i+len(sep):]] for [i = Index(s, sep)]. *)
Fixpoint cut (s sep : string) : option (string * string) :=
  if HasPrefix s sep then Some (EmptyString, skip (String.length sep) s)
  else
    match s with
    | EmptyString => None
    | String c s' =>
        match cut s' sep with
        | Some (before, after) => Some (String c before, after)
        | None => None
        end
    end.

Definition Contains (s substr : string) : bool :=
  match cut s substr with Some _ => true | None => false end.

(** [strings.Split] for a separator that is not empty, as the two
    separators of the code are: the loop cuts at the first separator and
    goes on with what follows it; every turn takes at least one byte
    off, so the length of [s] is fuel enough. *)
Fixpoint Split_loop (fuel : nat) (s sep : string) : list string :=
  match fuel with
  | O => [s]
  | S fuel' =>
      match cut s sep with
      | None => [s]
      | Some (before, after) => before :: Split_loop fuel' after sep
      end
  end.

Definition Split (s sep : string) : list string :=
  Split_loop (String.length s) s sep.

End Strs.

(** ** [hasFlag], [removeFlags] *)

Fixpoint hasFlag (args : list string) (flag : string) : bool :=
  match args with
  | [] => false
  | arg :: args' => if String.eqb arg flag then true else hasFlag args' flag
  end.

Definition removeFlags (args : list string) : list string :=
  foldl (fun clean arg =>
           if negb (Strs.HasPrefix arg "--") then clean ++ [arg] else clean)
        [] args.

(** ** The [upload] case of [main] up to [file := cleanArgs[2]]

    [None] is the run that prints the usage line and returns; otherwise
    the file operand and whether the payload is to be encrypted. *)
Definition upload_args (EncryptDefault : bool) (os_Args : list string)
  : option (string * bool) :=
  let cleanArgs := removeFlags os_Args in
  if Go.len cleanArgs <? 3 then None
  else
    let noEncrypt := hasFlag os_Args "--no-encrypt" in
    let forceEncrypt := hasFlag os_Args "--encrypt" in
    let shouldEncrypt := EncryptDefault in
    let shouldEncrypt := if forceEncrypt then true else shouldEncrypt in
    let shouldEncrypt := if noEncrypt then false else shouldEncrypt in
    let file := nth 2 cleanArgs EmptyString in
    Some (file, shouldEncrypt).

(** ** The [download] case of [main]: the reference out of a pasted link *)
Definition extract_cid (metadataCID : string) : string :=
  if Strs.Contains metadataCID "download=" then
    let parts := Strs.Split metadataCID "download=" in
    if Go.len parts >? 1 then
      let extracted := nth 0 (Strs.Split (nth 1 parts EmptyString) "&") EmptyString in
      extracted
    else metadataCID
  else metadataCID.

(** ** A gateway for the examples: every POST is answered [200 OK] *)
Definition post_answers_ok (url contentType : string) (data : bytes)
  : result Swarm.Response :=
  Ok {| Swarm.StatusCode := 200; Swarm.Body := Ok [] |}.



(** ** Uploads the gateway accepted

    Every upload of the list, made in turn after the events [tr], was
    answered with a reference. *)
Definition accepted (swarm_post : list event -> bytes -> result string)
    (tr : list event) (uploads : list bytes) : Prop :=
  forall before (data : bytes) after,
    uploads = before ++ data :: after ->
    exists reference, swarm_post (tr ++ (EvUpload <$> before)) data = Ok reference.

(** A gateway for the examples that refuses everything. *)
Definition refuse_post (tr : list event) (data : bytes) : result string :=
  Err ErrSwarm.

(** A gateway for the examples whose every GET is answered [404]. *)
Definition get_not_found (url : string) : result Swarm.Response :=
  Ok {| Swarm.StatusCode := 404; Swarm.Body := Ok [] |}.

(** Unfolding the plumbing of [prog] in a goal. *)
Ltac run_prog :=
  unfold mbind, prog_bind, bind, ret, fatalf,
    UploadToSwarm, DownloadFromSwarm, WriteFile.

(* ===================================================================== *)
(** * Facts about the Go primitives *)
(* ===================================================================== *)

Lemma wrap_in_int z : Go.in_int z -> Go.wrap z = z.
Proof.
  unfold Go.in_int, Go.int_min, Go.int_max, Go.wrap. intros Hz.
  rewrite Z.mod_small by lia. lia.
Qed.

Lemma digit_val_digit_char d :
  0 <= d <= 9 -> Go.digit_val (Go.digit_char d) = Some d.
Proof.
  intros Hd.
  assert (Hc : d = 0 \/ d = 1 \/ d = 2 \/ d = 3 \/ d = 4 \/ d = 5 \/ d = 6
               \/ d = 7 \/ d = 8 \/ d = 9) by lia.
  repeat (destruct Hc as [-> | Hc]; [reflexivity |]). subst. reflexivity.
Qed.

(** One step of the digit loop on a digit that does not overflow. *)
Lemma ParseUint_loop_digit n d s :
  0 <= d <= 9 -> 0 <= n -> n * 10 + d <= Go.uint64_max ->
  Go.ParseUint_loop n (String (Go.digit_char d) s)
  = Go.ParseUint_loop (n * 10 + d) s.
Proof.
  intros Hd Hn Hmax. cbn [Go.ParseUint_loop].
  rewrite digit_val_digit_char by done.
  assert (Hcut : Go.uint64_max / 10 + 1 = 1844674407370955162) by reflexivity.
  assert (Hm : Go.uint64_max = 18446744073709551615) by reflexivity.
  rewrite Hcut. rewrite Hm in *.
  destruct (Z.geb_spec n 1844674407370955162) as [?|_]; [lia|].
  destruct (Z.gtb_spec (n * 10 + d) 18446744073709551615) as [?|_]; [lia|].
  reflexivity.
Qed.

(** Reading back the digits that [format_digits] wrote. *)
Lemma ParseUint_loop_format_digits fuel : forall n acc,
  0 <= n <= Go.uint64_max -> n < 10 ^ Z.of_nat fuel ->
  Go.ParseUint_loop 0 (Go.format_digits fuel n acc) = Go.ParseUint_loop n acc.
Proof.
  induction fuel as [|fuel IH]; intros n acc Hn Hlt.
  - simpl in *. assert (n = 0) as -> by lia. reflexivity.
  - cbn [Go.format_digits].
    assert (Hmod : 0 <= n mod 10 <= 9) by (pose proof (Z.mod_pos_bound n 10); lia).
    assert (Hdiv : n = n / 10 * 10 + n mod 10)
      by (pose proof (Z.div_mod n 10); lia).
    destruct (Z.ltb_spec n 10) as [Hsmall|Hbig].
    + rewrite ParseUint_loop_digit by (rewrite ?Z.mod_small; lia).
      rewrite Z.mod_small by lia. reflexivity.
    + rewrite IH.
      * rewrite ParseUint_loop_digit by lia. by rewrite <- Hdiv.
      * split; [apply Z.div_pos; lia|]. lia.
      * rewrite Nat2Z.inj_succ, Z.pow_succ_r in Hlt by lia.
        apply Z.div_lt_upper_bound; lia.
Qed.

Lemma format_digits_nonempty fuel n acc :
  Go.format_digits (S fuel) n acc <> EmptyString.
Proof.
  revert n acc. induction fuel as [|fuel IH]; intros n acc; cbn [Go.format_digits].
  - by destruct (n <? 10).
  - destruct (n <? 10); [done|]. apply IH.
Qed.

Lemma ParseUint_format_digits n :
  0 <= n <= 2 ^ 63 ->
  Go.ParseUint (Go.format_digits 20 n "") = (n, None).
Proof.
  intros Hn.
  pose proof (format_digits_nonempty 19 n "") as Hne.
  pose proof (ParseUint_loop_format_digits 20 n "") as Hp.
  destruct (Go.format_digits 20 n "") as [|c rest] eqn:E; [done|].
  unfold Go.ParseUint. rewrite Hp; [reflexivity| |].
  - unfold Go.uint64_max. lia.
  - change (10 ^ Z.of_nat 20) with 100000000000000000000. lia.
Qed.

(** [Atoi] undoes [Itoa] on every [int], without an error. *)
Lemma Atoi_Itoa i : Go.in_int i -> Go.Atoi (Go.Itoa i) = (i, None).
Proof.
  unfold Go.in_int, Go.int_min, Go.int_max. intros Hi.
  unfold Go.Itoa. destruct (Z.ltb_spec i 0) as [Hneg|Hpos].
  - cbn [Go.Atoi]. change (Ascii.eqb "-" "+") with false.
    change (Ascii.eqb "-" "-") with true. cbv iota.
    rewrite ParseUint_format_digits by lia. cbn [Go.ParseInt_finish negb andb].
    destruct (Z.gtb_spec (- i) (2 ^ 63)); [lia|]. f_equal. lia.
  - pose proof (ParseUint_format_digits i ltac:(lia)) as Hp.
    pose proof (format_digits_nonempty 19 i "") as Hne.
    destruct (Go.format_digits 20 i "") as [|c rest] eqn:E; [done|].
    cbn [Go.Atoi].
    destruct (Ascii.eqb_spec c "+") as [->|Hplus]; [discriminate Hp|].
    destruct (Ascii.eqb_spec c "-") as [->|Hminus]; [discriminate Hp|].
    rewrite Hp. cbn [Go.ParseInt_finish negb andb].
    destruct (Z.geb_spec i (2 ^ 63)); [lia|]. reflexivity.
Qed.

Lemma Itoa_inj i j : Go.in_int i -> Go.in_int j -> Go.Itoa i = Go.Itoa j -> i = j.
Proof.
  intros Hi Hj Heq. pose proof (Atoi_Itoa i Hi) as H1.
  rewrite Heq, (Atoi_Itoa j Hj) in H1. congruence.
Qed.

Lemma ParseUint_loop_bounds s : forall n,
  0 <= n <= Go.uint64_max -> 0 <= (Go.ParseUint_loop n s).1 <= Go.uint64_max.
Proof.
  induction s as [|c s IH]; intros n Hn; cbn [Go.ParseUint_loop]; [done|].
  destruct (Go.digit_val c) as [d|] eqn:Hd; [|simpl; unfold Go.uint64_max; lia].
  destruct (n >=? _); [simpl; unfold Go.uint64_max; lia|].
  cbv zeta. destruct (Z.gtb_spec (n * 10 + d) Go.uint64_max) as [|Hle];
    [simpl; unfold Go.uint64_max; lia|].
  apply IH. split; [|lia].
  unfold Go.digit_val in Hd. cbv zeta in Hd.
  destruct (_ && _) eqn:Hb; [|done]. injection Hd as <-.
  apply andb_prop in Hb as [Hb _]. apply Z.leb_le in Hb. lia.
Qed.

Lemma ParseInt_finish_in_int neg r :
  0 <= r.1 -> Go.in_int (Go.ParseInt_finish neg r).1.
Proof.
  destruct r as [un [[]|]]; unfold Go.in_int, Go.int_min, Go.int_max;
    cbn [fst Go.ParseInt_finish]; intros Hun; try (simpl; lia).
  all: destruct neg; cbn [negb andb];
    repeat match goal with
    | |- context [Z.geb ?a ?b] => destruct (Z.geb_spec a b)
    | |- context [Z.gtb ?a ?b] => destruct (Z.gtb_spec a b)
    end; cbn [fst]; lia.
Qed.

(** Whatever the key, the number [Atoi] hands back is an [int]. *)
Lemma Atoi_in_int s : Go.in_int (Go.Atoi s).1.
Proof.
  assert (Hu : forall t, 0 <= (Go.ParseUint t).1).
  { intros [|c t]; [done|]. unfold Go.ParseUint.
    apply ParseUint_loop_bounds. unfold Go.uint64_max. lia. }
  destruct s as [|c rest]; [unfold Go.in_int, Go.int_min, Go.int_max; simpl; lia|].
  cbn [Go.Atoi]. repeat case_match; apply ParseInt_finish_in_int, Hu.
Qed.

(* ===================================================================== *)
(** * The chunker *)
(* ===================================================================== *)

Lemma num_windows_bounds (p : bytes) s :
  0 < s ->
  (num_windows p s - 1) * s < Go.len p <= num_windows p s * s.
Proof.
  intros Hs. unfold num_windows.
  pose proof (Z.div_mod (Go.len p + s - 1) s ltac:(lia)) as Hdm.
  pose proof (Z.mod_pos_bound (Go.len p + s - 1) s Hs) as Hr.
  set (n := (Go.len p + s - 1) / s) in *. nia.
Qed.

Lemma num_windows_range (p : bytes) s :
  0 < s -> 0 <= num_windows p s <= Go.len p.
Proof.
  intros Hs. pose proof (num_windows_bounds p s Hs) as Hb.
  assert (0 <= Go.len p) by (unfold Go.len; lia). nia.
Qed.

Lemma num_windows_nil s : 0 < s -> num_windows [] s = 0.
Proof.
  intros Hs. pose proof (num_windows_range [] s Hs) as H.
  change (Go.len (@nil Byte.byte)) with 0 in H. lia.
Qed.

(** The slice the loop takes at window [k] is the [k]-th window. *)
Lemma slice_window (p : bytes) s k :
  0 < s -> 1 <= k -> (k - 1) * s < Go.len p ->
  Go.slice p ((k - 1) * s) (if k * s >? Go.len p then Go.len p else k * s)
  = Some (window p s k).
Proof.
  intros Hs Hk Hlt. unfold Go.slice, window.
  assert (Hlen : Go.len p = Z.of_nat (length p)) by reflexivity.
  assert (H0 : 0 <= (k - 1) * s) by nia.
  destruct (Z.gtb_spec (k * s) (Go.len p)) as [Hbig|Hsmall].
  - replace ((0 <=? (k - 1) * s) && ((k - 1) * s <=? Go.len p)
             && (Go.len p <=? Go.len p)) with true
      by (symmetry; rewrite !andb_true_iff, !Z.leb_le; lia).
    f_equal. rewrite !take_ge; [done| |]; rewrite length_drop; lia.
  - replace ((0 <=? (k - 1) * s) && ((k - 1) * s <=? k * s)
             && (k * s <=? Go.len p)) with true
      by (symmetry; rewrite !andb_true_iff, !Z.leb_le; lia).
    do 2 f_equal. lia.
Qed.

Section ChunkerFacts.

Variable Sum256 : bytes -> bytes.

Lemma Itoa_fresh (k : Z) (cnt : Z) {V} (f : Z -> V) :
  1 <= k -> k + cnt <= 2 ^ 62 + 1 ->
  (list_to_map ((fun j => (Go.Itoa j, f j)) <$> seqZ (k + 1) cnt) : gmap string V)
    !! Go.Itoa k = None.
Proof.
  intros Hk Hmax. apply not_elem_of_list_to_map_1.
  rewrite <- list_fmap_compose. intros Hin.
  apply list_elem_of_fmap in Hin as (j & Heq & Hj). simpl in Heq.
  apply elem_of_seqZ in Hj.
  apply Itoa_inj in Heq; unfold Go.in_int, Go.int_min, Go.int_max; lia.
Qed.

(** The loop, entered at the start of window [k] with [k - 1] windows
    already filed, files the remaining windows and returns. *)
Lemma SplitIntoChunks_loop_spec (p : bytes) s fuel :
  0 < s <= Go.int_max -> Go.len p <= 2 ^ 62 ->
  forall k chunks hashes,
  1 <= k <= num_windows p s + 1 ->
  num_windows p s - k + 1 < Z.of_nat fuel ->
  SplitIntoChunks_loop Sum256 fuel p s ((k - 1) * s) k chunks hashes
  = Returned
      (list_to_map ((fun j => (Go.Itoa j, window p s j))
                      <$> seqZ k (num_windows p s - k + 1)) ∪ chunks,
       list_to_map ((fun j => (Go.Itoa j, Go.Sprintf_x (Sum256 (window p s j))))
                      <$> seqZ k (num_windows p s - k + 1)) ∪ hashes).
Proof.
  intros Hs Hlen. pose proof (num_windows_bounds p s ltac:(lia)) as Hb.
  pose proof (num_windows_range p s ltac:(lia)) as Hr.
  set (n := num_windows p s) in *. unfold Go.int_max in Hs.
  induction fuel as [|fuel IH]; intros k chunks hashes Hk Hfuel; [lia|].
  cbn [SplitIntoChunks_loop].
  destruct (Z.ltb_spec ((k - 1) * s) (Go.len p)) as [Hin|Hout].
  - assert (Hkn : k <= n) by nia.
    assert (Hsum : (k - 1) * s + s = k * s) by lia.
    assert (Hks : k * s <= 2 ^ 63 - 1).
    { destruct (decide (k = 1)) as [->|]; [lia|].
      assert (s <= (k - 1) * s) by nia. lia. }
    rewrite Hsum, !wrap_in_int
      by (unfold Go.in_int, Go.int_min, Go.int_max; nia).
    rewrite slice_window by lia.
    replace (k * s) with ((k + 1 - 1) * s) by lia.
    rewrite IH by lia.
    replace (n - k + 1) with (Z.succ (n - k)) by lia.
    rewrite (seqZ_cons k) by lia. rewrite Z.pred_succ, !fmap_cons.
    cbn [list_to_map foldr uncurry].
    replace (n - (k + 1) + 1) with (n - k) by lia. replace (Z.succ k) with (k + 1) by lia.
    rewrite <- !insert_union_l, <- !insert_union_r; [done| |];
      apply Itoa_fresh; lia.
  - assert (k = n + 1) as -> by nia.
    rewrite seqZ_nil by lia. cbn [fmap list_fmap list_to_map foldr].
    by rewrite !(left_id_L ∅ (∪)).
Qed.

(** For a positive chunk size the split returns, and what it returns is
    the numbered windows of the payload with their digests. *)
Lemma SplitIntoChunks_returns (p : bytes) s fuel :
  0 < s <= Go.int_max -> Go.len p <= 2 ^ 62 ->
  num_windows p s < Z.of_nat fuel ->
  SplitIntoChunks Sum256 fuel p s
  = Returned (expected_chunks p s, expected_hashes Sum256 p s).
Proof.
  intros Hs Hlen Hfuel. unfold SplitIntoChunks.
  pose proof (num_windows_range p s ltac:(lia)).
  change 0 with ((1 - 1) * s) at 1.
  rewrite SplitIntoChunks_loop_spec by lia.
  rewrite !(right_id_L ∅ (∪)). unfold expected_chunks, expected_hashes.
  by replace (num_windows p s - 1 + 1) with (num_windows p s) by lia.
Qed.

End ChunkerFacts.

(** ** Sorting the keys *)

Lemma sort_Ints_Sorted l : Sorted Z.le (Go.sort_Ints l).
Proof. apply (Sorted_merge_sort Z.le). Qed.

Lemma sort_Ints_Permutation l : Go.sort_Ints l ≡ₚ l.
Proof. apply (merge_sort_Permutation Z.le). Qed.

(** The sorted slice depends on the contents only, not on the order in
    which they were appended. *)
Lemma sort_Ints_proper l l' : l ≡ₚ l' -> Go.sort_Ints l = Go.sort_Ints l'.
Proof.
  intros Hp. apply (Sorted_unique Z.le); auto using sort_Ints_Sorted.
  by rewrite !sort_Ints_Permutation.
Qed.

Lemma sort_Ints_of_Sorted l l' : Sorted Z.le l -> l' ≡ₚ l -> Go.sort_Ints l' = l.
Proof.
  intros Hs Hp. apply (Sorted_unique Z.le); auto using sort_Ints_Sorted.
  by rewrite sort_Ints_Permutation.
Qed.

Lemma Sorted_seqZ m n : Sorted Z.le (seqZ m n).
Proof.
  destruct (decide (n <= 0)) as [|Hn]; [rewrite seqZ_nil by lia; constructor|].
  rewrite <- (Z2Nat.id n) by lia. generalize (Z.to_nat n) as c. clear.
  intros c. revert m. induction c as [|c IH]; intros m; [constructor|].
  rewrite seqZ_cons by lia. constructor.
  - replace (Z.pred (Z.of_nat (S c))) with (Z.of_nat c) by lia. apply IH.
  - replace (Z.pred (Z.of_nat (S c))) with (Z.of_nat c) by lia.
    destruct c as [|c]; [constructor|].
    rewrite seqZ_cons by lia. constructor. lia.
Qed.

(** ** [ReassembleChunks] as a formula *)

Lemma foldl_snoc_fmap {A B} (g : A -> B) (l : list A) (acc : list B) :
  foldl (fun keys k => keys ++ [g k]) acc l = acc ++ (g <$> l).
Proof.
  revert acc. induction l as [|x l IH]; intros acc; simpl.
  - by rewrite (right_id_L [] (++)).
  - by rewrite IH, <- (assoc_L (++)).
Qed.

Lemma foldl_app_concat {A B} (f : A -> list B) (l : list A) (acc : list B) :
  foldl (fun result k => result ++ f k) acc l = acc ++ concat (f <$> l).
Proof.
  revert acc. induction l as [|x l IH]; intros acc; simpl.
  - by rewrite (right_id_L [] (++)).
  - by rewrite IH, <- (assoc_L (++)).
Qed.

(** The keys are parsed, sorted as numbers, and each number is looked up
    again under its decimal numeral. *)
Lemma ReassembleChunks_eq order chunks :
  ReassembleChunks order chunks
  = concat ((fun k => Go.index_bytes chunks (Go.Itoa k))
              <$> Go.sort_Ints ((fun k => (Go.Atoi k).1) <$> order)).
Proof.
  unfold ReassembleChunks. by rewrite foldl_snoc_fmap, foldl_app_concat.
Qed.

(** ** The windows of a payload *)

Lemma concat_windows (p : bytes) s (cnt : nat) : forall k,
  0 < s -> 1 <= k ->
  concat (window p s <$> seqZ k (Z.of_nat cnt))
  = take (cnt * Z.to_nat s) (drop (Z.to_nat ((k - 1) * s)) p).
Proof.
  induction cnt as [|cnt IH]; intros k Hs Hk; [done|].
  rewrite seqZ_cons by lia.
  replace (Z.pred (Z.of_nat (S cnt))) with (Z.of_nat cnt) by lia.
  rewrite fmap_cons. cbn [concat]. rewrite IH by lia.
  unfold window at 1.
  replace (Z.to_nat ((Z.succ k - 1) * s))
    with (Z.to_nat ((k - 1) * s) + Z.to_nat s)%nat by nia.
  rewrite <- drop_drop, take_take_drop. f_equal.
Qed.

Lemma concat_all_windows (p : bytes) s :
  0 < s -> concat (window p s <$> seqZ 1 (num_windows p s)) = p.
Proof.
  intros Hs. pose proof (num_windows_bounds p s Hs) as Hb.
  pose proof (num_windows_range p s Hs) as Hr. unfold Go.len in *.
  rewrite <- (Z2Nat.id (num_windows p s)) by lia.
  rewrite concat_windows by lia. simpl. apply take_ge. nia.
Qed.

Lemma window_length (p : bytes) s k :
  0 < s -> 1 <= k ->
  Go.len (window p s k) = Z.max 0 (Z.min s (Go.len p - (k - 1) * s)).
Proof.
  intros Hs Hk. unfold Go.len, window. rewrite length_take, length_drop. nia.
Qed.

(** ** The expected mappings *)

Lemma numerals_NoDup {V} (f : Z -> V) n :
  n <= 2 ^ 62 -> NoDup ((fun k => (Go.Itoa k, f k)) <$> seqZ 1 n).*1.
Proof.
  intros Hn. rewrite <- list_fmap_compose.
  apply NoDup_fmap_2_strong; [|apply NoDup_seqZ].
  intros i j Hi%elem_of_seqZ Hj%elem_of_seqZ Heq. simpl in Heq.
  apply Itoa_inj in Heq; unfold Go.in_int, Go.int_min, Go.int_max; lia.
Qed.

Lemma expected_chunks_lookup (p : bytes) s k :
  0 < s -> Go.len p <= 2 ^ 62 -> 1 <= k <= num_windows p s ->
  expected_chunks p s !! Go.Itoa k = Some (window p s k).
Proof.
  intros Hs Hlen Hk. pose proof (num_windows_range p s Hs).
  apply elem_of_list_to_map_1; [apply numerals_NoDup; lia|].
  apply list_elem_of_fmap. exists k. split; [done|]. apply elem_of_seqZ. lia.
Qed.

Lemma expected_chunks_keys (p : bytes) s key :
  is_Some (expected_chunks p s !! key)
  <-> exists k, 1 <= k <= num_windows p s /\ key = Go.Itoa k.
Proof.
  unfold expected_chunks. split.
  - intros [v Hv]. apply elem_of_list_to_map_2 in Hv.
    apply list_elem_of_fmap in Hv as (k & [= -> ->] & Hk%elem_of_seqZ).
    exists k. split; [lia|done].
  - intros (k & Hk & ->). apply not_eq_None_Some.
    rewrite <- not_elem_of_list_to_map, <- list_fmap_compose.
    intros Hn. apply Hn, list_elem_of_fmap. exists k. split; [done|].
    apply elem_of_seqZ. lia.
Qed.

Lemma expected_chunks_size (p : bytes) s :
  0 < s -> Go.len p <= 2 ^ 62 ->
  Z.of_nat (size (expected_chunks p s)) = num_windows p s.
Proof.
  intros Hs Hlen. pose proof (num_windows_range p s Hs).
  unfold expected_chunks.
  rewrite map_size_list_to_map by (apply numerals_NoDup; lia).
  rewrite length_fmap, length_seqZ. lia.
Qed.

Lemma expected_hashes_fmap Sum256 (p : bytes) s :
  expected_hashes Sum256 p s
  = (fun c => Go.Sprintf_x (Sum256 c)) <$> expected_chunks p s.
Proof.
  unfold expected_hashes, expected_chunks.
  rewrite <- list_to_map_fmap, <- list_fmap_compose. done.
Qed.

Lemma expected_chunks_order (p : bytes) s order :
  0 < s -> Go.len p <= 2 ^ 62 ->
  Go.range_order (expected_chunks p s) order ->
  (fun k => (Go.Atoi k).1) <$> order ≡ₚ seqZ 1 (num_windows p s).
Proof.
  intros Hs Hlen Hord. pose proof (num_windows_range p s Hs).
  unfold Go.range_order, expected_chunks in Hord.
  rewrite map_to_list_to_map in Hord by (apply numerals_NoDup; lia).
  rewrite Hord, <- !list_fmap_compose.
  rewrite <- (list_fmap_id (seqZ 1 _)) at 2.
  apply reflexive_eq, Forall_fmap_ext_1, Forall_forall.
  intros k Hk%elem_of_seqZ. simpl.
  rewrite Atoi_Itoa; [done|]. unfold Go.in_int, Go.int_min, Go.int_max. lia.
Qed.

(** Reassembling the expected mapping gives the payload back, whatever
    the order in which the map hands out its keys. *)
Lemma ReassembleChunks_expected (p : bytes) s order :
  0 < s -> Go.len p <= 2 ^ 62 ->
  Go.range_order (expected_chunks p s) order ->
  ReassembleChunks order (expected_chunks p s) = p.
Proof.
  intros Hs Hlen Hord. rewrite ReassembleChunks_eq.
  rewrite (sort_Ints_of_Sorted (seqZ 1 (num_windows p s)));
    [|apply Sorted_seqZ|by apply expected_chunks_order].
  rewrite <- (concat_all_windows p s Hs) at 2. f_equal.
  apply Forall_fmap_ext_1, Forall_forall. intros k Hk%elem_of_seqZ.
  unfold Go.index_bytes. rewrite expected_chunks_lookup by lia. done.
Qed.

(** ** The claims about the split *)

(** C1. For every payload [p] and every positive chunk size [s], the split
    returns, and reassembling the pieces it returns gives [p] back byte for
    byte, whatever the order in which the piece map hands out its keys. *)
Theorem chunk_round_trip (Sum256 : bytes -> bytes) (p : bytes) (s : Z) (fuel : nat) :
  0 < s <= Go.int_max -> Go.len p <= 2 ^ 62 ->
  num_windows p s < Z.of_nat fuel ->
  exists chunks hashes,
    SplitIntoChunks Sum256 fuel p s = Returned (chunks, hashes) /\
    forall order, Go.range_order chunks order ->
      ReassembleChunks order chunks = p.
Proof.
  intros Hs Hlen Hfuel. eexists _, _. split.
  - by apply SplitIntoChunks_returns.
  - intros order Hord. apply (ReassembleChunks_expected p s); [lia|done|done].
Qed.

Lemma chunk_round_trip_witness :
  exists chunks hashes,
    SplitIntoChunks (fun b => b) 4 [x01; x02; x03; x04; x05] 2
    = Returned (chunks, hashes) /\
    forall order, Go.range_order chunks order ->
      ReassembleChunks order chunks = [x01; x02; x03; x04; x05].
Proof.
  apply (chunk_round_trip (fun b => b) [x01; x02; x03; x04; x05] 2 4).
  - unfold Go.int_max. lia.
  - unfold Go.len. simpl. lia.
  - reflexivity.
Defined.

(** C3. For a positive chunk size the split returns one piece per
    [s]-sized window of the payload, walked left to right: the keys are the
    decimal numerals of 1, 2, ..., [num_windows p s], piece [k] is the [k]-th
    window, every piece but the last has exactly [s] bytes, the last one is
    not empty and has at most [s] bytes, the digests are the hex SHA-256 of
    the pieces under the same keys, an empty payload gives two empty
    mappings, and 25,000,000 bytes cut at 10,000,000 give three pieces of
    10,000,000, 10,000,000 and 5,000,000 bytes with three digests. *)
Theorem split_pieces (Sum256 : bytes -> bytes) (p : bytes) (s : Z) (fuel : nat) :
  0 < s <= Go.int_max -> Go.len p <= 2 ^ 62 ->
  num_windows p s < Z.of_nat fuel ->
  exists chunks hashes,
    SplitIntoChunks Sum256 fuel p s = Returned (chunks, hashes) /\
    Z.of_nat (size chunks) = num_windows p s /\
    (forall key, is_Some (chunks !! key)
                 <-> exists k, 1 <= k <= num_windows p s /\ key = Go.Itoa k) /\
    (forall k, 1 <= k <= num_windows p s ->
               chunks !! Go.Itoa k = Some (window p s k)) /\
    (forall k, 1 <= k < num_windows p s -> Go.len (window p s k) = s) /\
    (1 <= num_windows p s ->
     0 < Go.len (window p s (num_windows p s)) <= s) /\
    hashes = (fun c => Go.Sprintf_x (Sum256 c)) <$> chunks /\
    size hashes = size chunks /\
    (p = [] -> chunks = ∅ /\ hashes = ∅) /\
    (Go.len p = 25000000 -> s = 10000000 ->
     size chunks = 3%nat /\ size hashes = 3%nat /\
     exists c1 c2 c3,
       chunks !! "1"%string = Some c1 /\ Go.len c1 = 10000000 /\
       chunks !! "2"%string = Some c2 /\ Go.len c2 = 10000000 /\
       chunks !! "3"%string = Some c3 /\ Go.len c3 = 5000000).
Proof.
  intros Hs Hlen Hfuel. unfold Go.int_max in Hs.
  pose proof (num_windows_bounds p s ltac:(lia)) as Hb.
  pose proof (num_windows_range p s ltac:(lia)) as Hr.
  exists (expected_chunks p s), (expected_hashes Sum256 p s).
  split; [apply SplitIntoChunks_returns; unfold Go.int_max; lia|].
  split; [apply expected_chunks_size; lia|].
  split; [apply expected_chunks_keys|].
  split; [intros k Hk; apply expected_chunks_lookup; lia|].
  split; [intros k Hk; rewrite window_length by lia; nia|].
  split; [intros Hn; rewrite window_length by lia; nia|].
  split; [apply expected_hashes_fmap|].
  split; [by rewrite expected_hashes_fmap, map_size_fmap|].
  split.
  - intros ->. rewrite expected_hashes_fmap.
    assert (expected_chunks [] s = ∅) as ->
      by (unfold expected_chunks; by rewrite num_windows_nil by lia).
    by rewrite fmap_empty.
  - intros Hp ->.
    assert (Hn : num_windows p 10000000 = 3) by (unfold num_windows; by rewrite Hp).
    pose proof (expected_chunks_size p 10000000 ltac:(lia) Hlen) as Hsz.
    rewrite Hn in Hsz.
    split; [lia|]. split; [rewrite expected_hashes_fmap, map_size_fmap; lia|].
    exists (window p 10000000 1), (window p 10000000 2), (window p 10000000 3).
    repeat split.
    + apply (expected_chunks_lookup p 10000000 1); lia.
    + rewrite window_length by lia. lia.
    + apply (expected_chunks_lookup p 10000000 2); lia.
    + rewrite window_length by lia. lia.
    + apply (expected_chunks_lookup p 10000000 3); lia.
    + rewrite window_length by lia. lia.
Qed.

Lemma split_pieces_witness :
  exists chunks hashes,
    SplitIntoChunks (fun b => b) 4 [x01; x02; x03; x04; x05] 2
    = Returned (chunks, hashes) /\
    chunks !! "3"%string = Some [x05] /\ size hashes = 3%nat.
Proof.
  destruct (split_pieces (fun b => b) [x01; x02; x03; x04; x05] 2 4)
    as (chunks & hashes & Hret & Hsize & _ & Hlook & _ & _ & _ & Hsz & _).
  - unfold Go.int_max. lia.
  - unfold Go.len. simpl. lia.
  - reflexivity.
  - exists chunks, hashes. split; [exact Hret|]. split.
    + apply (Hlook 3). vm_compute. split; discriminate.
    + rewrite Hsz. apply Nat2Z.inj. rewrite Hsize. reflexivity.
Defined.

(** ** Non-positive chunk sizes *)

(** With chunk size 0 and a payload that is not empty the loop never
    advances: no amount of fuel lets the model return. *)
Lemma SplitIntoChunks_zero_size (Sum256 : bytes -> bytes) (p : bytes) :
  p <> [] -> forall fuel, SplitIntoChunks Sum256 fuel p 0 = OutOfFuel.
Proof.
  intros Hp fuel. unfold SplitIntoChunks.
  generalize 1 (∅ : gmap string bytes) (∅ : gmap string string).
  induction fuel as [|fuel IH]; intros num chunks hashes; [done|].
  cbn [SplitIntoChunks_loop].
  assert (Hlen : 0 < Go.len p) by (destruct p; [done|unfold Go.len; simpl; lia]).
  destruct (Z.ltb_spec 0 (Go.len p)); [|lia].
  change (Go.wrap (0 + 0)) with 0.
  destruct (Z.gtb_spec 0 (Go.len p)); [lia|].
  unfold Go.slice. cbn [Z.leb Z.compare andb].
  destruct (Z.leb_spec 0 (Go.len p)); [|lia]. apply IH.
Qed.

(** C5, as the code has it. [SplitIntoChunks] has no error result and does
    not look at the sign of the chunk size: with a chunk size that is not
    positive an empty payload still gives the two empty mappings, and a
    payload that is not empty, cut with a negative chunk size, stops in a
    run-time panic at the first slice expression. *)
Theorem split_nonpositive (Sum256 : bytes -> bytes) (p : bytes) (s : Z) (fuel : nat) :
  Go.in_int s -> s <= 0 -> (0 < fuel)%nat ->
  (p = [] -> SplitIntoChunks Sum256 fuel p s = Returned (∅, ∅)) /\
  (p <> [] -> s < 0 -> SplitIntoChunks Sum256 fuel p s = Panicked).
Proof.
  intros Hint Hs Hfuel. destruct fuel as [|fuel]; [lia|]. split.
  - intros ->. reflexivity.
  - intros Hp Hneg. unfold SplitIntoChunks. cbn [SplitIntoChunks_loop].
    assert (Hlen : 0 < Go.len p) by (destruct p; [done|unfold Go.len; simpl; lia]).
    destruct (Z.ltb_spec 0 (Go.len p)); [|lia].
    rewrite Z.add_0_l, wrap_in_int by done.
    destruct (Z.gtb_spec s (Go.len p)); [lia|].
    unfold Go.slice. destruct (Z.leb_spec 0 s); [lia|]. done.
Qed.

Lemma split_nonpositive_witness :
  SplitIntoChunks (fun b => b) 1 [] (-1) = Returned (∅, ∅).
Proof.
  apply (split_nonpositive (fun b => b) [] (-1) 1).
  - unfold Go.in_int, Go.int_min, Go.int_max. lia.
  - lia.
  - lia.
  - reflexivity.
Defined.

(** C5 as stated fails: with the empty payload and chunk size 0 the split
    returns normally, with two empty mappings. *)
Lemma split_nonpositive_counterexample :
  0 <= 0 /\ SplitIntoChunks (fun b => b) 1 [] 0 = Returned (∅, ∅).
Proof. split; [lia|reflexivity]. Qed.

(** ** The claims about reassembly *)

Lemma Forall_Atoi_in_int (l : list string) :
  Forall Go.in_int ((fun k => (Go.Atoi k).1) <$> l).
Proof. apply Forall_fmap, Forall_forall. intros k _. apply Atoi_in_int. Qed.

Lemma StronglySorted_le_lt (l : list Z) :
  StronglySorted Z.le l -> NoDup l -> StronglySorted Z.lt l.
Proof.
  induction 1 as [|x l Hl IH Hx]; intros Hnd; [constructor|].
  apply NoDup_cons in Hnd as [Hnin Hnd]. constructor; [by apply IH|].
  rewrite Forall_forall in *. intros y Hy. specialize (Hx y Hy).
  assert (x <> y) by (intros ->; done). lia.
Qed.

(** When every key is the decimal numeral of its own number, the entries
    of the map are taken once each, in strictly ascending numeric order. *)
Lemma ReassembleChunks_canonical chunks order :
  Go.range_order chunks order ->
  (forall key, is_Some (chunks !! key) -> Go.Itoa (Go.Atoi key).1 = key) ->
  exists l,
    l ≡ₚ map_to_list chunks /\
    StronglySorted (fun x y => (Go.Atoi x.1).1 < (Go.Atoi y.1).1) l /\
    ReassembleChunks order chunks = concat l.*2.
Proof.
  intros Hord Hcan. unfold Go.range_order in Hord.
  set (keys := Go.sort_Ints ((fun k => (Go.Atoi k).1) <$> order)).
  exists ((fun k => (Go.Itoa k, Go.index_bytes chunks (Go.Itoa k))) <$> keys).
  assert (Hkeys : keys ≡ₚ (fun k => (Go.Atoi k).1) <$> (map_to_list chunks).*1)
    by (unfold keys; by rewrite sort_Ints_Permutation, Hord).
  assert (Hint : Forall Go.in_int keys)
    by (rewrite Hkeys; apply Forall_Atoi_in_int).
  assert (Hentries :
    (fun k => (Go.Itoa k, Go.index_bytes chunks (Go.Itoa k))) <$> keys
    ≡ₚ map_to_list chunks).
  { rewrite Hkeys, <- !list_fmap_compose.
    rewrite <- (list_fmap_id (map_to_list chunks)) at 2.
    apply reflexive_eq, Forall_fmap_ext_1, Forall_forall.
    intros [k v] Hkv%elem_of_map_to_list. simpl.
    rewrite (Hcan k) by eauto. unfold Go.index_bytes. by rewrite Hkv. }
  split; [done|]. split.
  - assert (Hnd : NoDup keys).
    { apply (NoDup_fmap_1 Go.Itoa).
      assert (Go.Itoa <$> keys ≡ₚ (map_to_list chunks).*1) as ->.
      { rewrite <- Hentries, <- list_fmap_compose. done. }
      apply NoDup_fst_map_to_list. }
    pose proof (StronglySorted_le_lt keys
      (Sorted_StronglySorted _ _ (sort_Ints_Sorted _)) Hnd) as Hss.
    clear -Hss Hint. induction Hss as [|x l Hl IH Hx]; [constructor|].
    apply Forall_cons in Hint as [Hxi Hint]. rewrite fmap_cons.
    constructor; [by apply IH|].
    apply Forall_fmap, Forall_forall. intros y Hy. simpl.
    rewrite Forall_forall in Hx, Hint.
    rewrite !Atoi_Itoa by auto. simpl. by apply Hx.
  - rewrite ReassembleChunks_eq. fold keys. by rewrite <- list_fmap_compose.
Qed.

(** Filing entries one after the other, a later one replacing an earlier
    one of the same key; with keys all different this is the map of the
    entries. *)
Lemma foldl_insert_list_to_map {V} (l : list (string * V)) : forall acc,
  NoDup l.*1 ->
  foldl (fun (m : gmap string V) kv => <[kv.1 := kv.2]> m) acc l
  = list_to_map l ∪ acc.
Proof.
  induction l as [|[k v] l IH]; intros acc Hnd; simpl.
  - by rewrite (left_id_L ∅ (∪)).
  - apply NoDup_cons in Hnd as [Hk Hnd]. rewrite IH by done.
    rewrite <- insert_union_l, <- insert_union_r; [done|].
    by apply not_elem_of_list_to_map_1.
Qed.

Lemma ReassembleChunks_order_irrelevant (chunks : gmap string bytes) order order' :
  Go.range_order chunks order -> Go.range_order chunks order' ->
  ReassembleChunks order' chunks = ReassembleChunks order chunks.
Proof.
  unfold Go.range_order. intros Ho Ho'. rewrite !ReassembleChunks_eq.
  do 2 f_equal. apply sort_Ints_proper. by rewrite Ho, Ho'.
Qed.

Lemma range_order_two {V} (k1 k2 : string) (v1 v2 : V) order :
  k1 <> k2 ->
  Go.range_order (<[k2 := v2]> ({[k1 := v1]} : gmap string V)) order ->
  Go.range_order (<[k2 := v2]> ({[k1 := v1]} : gmap string V)) [k1; k2].
Proof.
  intros Hne _. unfold Go.range_order.
  rewrite map_to_list_insert by (by rewrite lookup_singleton_ne).
  rewrite map_to_list_singleton. simpl. apply Permutation_swap.
Qed.

(** C7. The keys are put in ascending numeric order (the sorted key list
    is sorted by [<=] and is a rearrangement of the parsed keys of the map),
    the output is the concatenation, in that order, of the bytes found under
    the numeral of each number; for a map whose keys are the numerals of
    their numbers this is every entry once, in strictly ascending numeric key
    order; the output is the same for any two orders in which the map hands
    out its keys, and the same for two maps filled with the same entries in
    different orders; and key "10" comes after key "9", although as a
    string it sorts before it. *)
Theorem reassemble_numeric_order (chunks : gmap string bytes)
    (order order' : list string) :
  Go.range_order chunks order -> Go.range_order chunks order' ->
  let keys := Go.sort_Ints ((fun k => (Go.Atoi k).1) <$> order) in
  Sorted Z.le keys /\
  keys ≡ₚ (fun k => (Go.Atoi k).1) <$> (map_to_list chunks).*1 /\
  ReassembleChunks order chunks
  = concat ((fun k => Go.index_bytes chunks (Go.Itoa k)) <$> keys) /\
  ((forall key, is_Some (chunks !! key) -> Go.Itoa (Go.Atoi key).1 = key) ->
   exists l,
     l ≡ₚ map_to_list chunks /\
     StronglySorted (fun x y => (Go.Atoi x.1).1 < (Go.Atoi y.1).1) l /\
     ReassembleChunks order chunks = concat l.*2) /\
  ReassembleChunks order' chunks = ReassembleChunks order chunks /\
  (forall (entries entries' : list (string * bytes)) o o',
     NoDup entries.*1 -> entries ≡ₚ entries' ->
     let filled (l : list (string * bytes)) : gmap string bytes :=
       foldl (fun m kv => <[kv.1 := kv.2]> m) ∅ l in
     Go.range_order (filled entries) o -> Go.range_order (filled entries') o' ->
     ReassembleChunks o (filled entries) = ReassembleChunks o' (filled entries')) /\
  (String.ltb "10" "9" = true /\
   forall (a b : bytes) o,
     Go.range_order (<["10"%string := b]> {["9"%string := a]}) o ->
     ReassembleChunks o (<["10"%string := b]> {["9"%string := a]}) = a ++ b).
Proof.
  intros Ho Ho' keys.
  split; [apply sort_Ints_Sorted|].
  split; [unfold keys; rewrite sort_Ints_Permutation; by rewrite Ho|].
  split; [apply ReassembleChunks_eq|].
  split; [by apply ReassembleChunks_canonical|].
  split; [by apply ReassembleChunks_order_irrelevant|].
  split.
  { intros entries entries' o o' Hnd Hp filled. unfold filled.
    assert (Hnd' : NoDup entries'.*1) by (by rewrite <- Hp).
    rewrite !foldl_insert_list_to_map, !(right_id_L ∅ (∪)) by done.
    rewrite (list_to_map_proper entries entries') by done.
    intros Hoo Hoo'. by apply (ReassembleChunks_order_irrelevant _ o' o). }
  split; [reflexivity|]. intros a b o Hoo.
  rewrite (ReassembleChunks_order_irrelevant _ ["9"; "10"]%string o);
    [|by apply (range_order_two _ _ _ _ o)|done].
  rewrite ReassembleChunks_eq.
  assert (Go.sort_Ints ((fun k => (Go.Atoi k).1) <$> ["9"; "10"]%string) = [9; 10])
    as -> by reflexivity.
  cbn [fmap list_fmap concat]. unfold Go.index_bytes.
  change (Go.Itoa 9) with "9"%string. change (Go.Itoa 10) with "10"%string.
  rewrite lookup_insert_ne by done. rewrite lookup_singleton_eq, lookup_insert_eq.
  simpl. by rewrite (right_id_L [] (++)).
Qed.

Lemma reassemble_numeric_order_witness :
  ReassembleChunks ["9"; "10"]%string
    (<["10"%string := [x02]]> {["9"%string := [x01]]})
  = ReassembleChunks ["10"; "9"]%string
    (<["10"%string := [x02]]> {["9"%string := [x01]]}).
Proof.
  pose (m := <["10"%string := [x02]]> ({["9"%string := [x01]]} : gmap string bytes)).
  assert (H1 : Go.range_order m ["10"; "9"]%string)
    by (vm_compute; apply Permutation_swap).
  assert (H2 : Go.range_order m ["9"; "10"]%string) by (vm_compute; reflexivity).
  exact (proj1 (proj2 (proj2 (proj2 (proj2
    (reassemble_numeric_order m ["10"; "9"]%string ["9"; "10"]%string H1 H2)))))).
Defined.

(** ** Keys that are not the numeral of their number *)









(* ===================================================================== *)
(** * The cipher *)
(* ===================================================================== *)

Lemma aes_NewCipher_32 (key : bytes) :
  length key = 32%nat -> aes_NewCipher key = Ok key.
Proof. intros Hk. unfold aes_NewCipher. by rewrite Hk. Qed.

Lemma ReadFull_enough (rnd : bytes) (n : nat) :
  (n <= length rnd)%nat -> ReadFull rnd n = Ok (take n rnd).
Proof. intros Hn. unfold ReadFull. by rewrite decide_True. Qed.

Lemma EncryptData_Ok `{GCM} (rnd p key : bytes) :
  length key = 32%nat -> (12 <= length rnd)%nat ->
  EncryptData rnd p key
  = Ok (take 12 rnd ++ Seal key (take 12 rnd) p).
Proof.
  intros Hk Hr. unfold EncryptData.
  rewrite aes_NewCipher_32, ReadFull_enough by done. reflexivity.
Qed.

(** Whatever [EncryptData] returns is a 12-byte nonce in front of what
    [Seal] made under a key that [aes.NewCipher] accepted. *)
Lemma EncryptData_inv `{GCM} (rnd p key env : bytes) :
  EncryptData rnd p key = Ok env ->
  aes_NewCipher key = Ok key /\ (12 <= length rnd)%nat /\
  env = take 12 rnd ++ Seal key (take 12 rnd) p.
Proof.
  unfold EncryptData, aes_NewCipher, ReadFull.
  destruct (_ || _); [|done]. cbn [mbind result_bind].
  destruct (decide _) as [Hr|]; [|done]. cbn [mbind result_bind cipher_NewGCM].
  simpl. intros [= <-]. done.
Qed.

Section CipherFacts.

Context {aead : GCM}.

(** What the crypto library promises of AES-GCM under a key, with a
    12-byte nonce: the tag adds 16 bytes, and opening what was sealed
    gives the plaintext back. *)
Hypothesis Seal_length : forall key nonce p : bytes,
  aes_NewCipher key = Ok key -> length nonce = 12%nat ->
  length (Seal key nonce p) = (length p + 16)%nat.

Hypothesis Open_Seal : forall key nonce p : bytes,
  aes_NewCipher key = Ok key -> length nonce = 12%nat ->
  Open key nonce (Seal key nonce p) = Some p.

(** C2. For every plaintext [p] and every 32-byte key, with the random
    source good for the 12 bytes of the nonce, encryption returns an
    envelope and decrypting that envelope under the same key returns [p]. *)
Theorem encrypt_decrypt_round_trip (rnd p key : bytes) :
  length key = 32%nat -> (12 <= length rnd)%nat ->
  exists env,
    EncryptData rnd p key = Ok env /\ DecryptData env key = Ok p.
Proof using Open_Seal.
  intros Hk Hr. eexists. split; [by apply EncryptData_Ok|].
  unfold DecryptData.
  assert (Hn : length (take 12 rnd) = 12%nat) by (rewrite length_take; lia).
  destruct (Z.ltb_spec (Go.len (take 12 rnd ++ Seal key (take 12 rnd) p)) 12)
    as [Hshort|_].
  { unfold Go.len in Hshort. rewrite length_app in Hshort. lia. }
  rewrite aes_NewCipher_32 by done. cbn [mbind result_bind].
  change (cipher_NewGCM key) with (Ok key). cbn [mbind result_bind].
  rewrite take_app_length', drop_app_length' by done.
  by rewrite Open_Seal by (by rewrite ?aes_NewCipher_32).
Qed.

(** C9. For every plaintext [p] and every 32-byte key, the envelope that
    [EncryptData] returns is the 12-byte nonce followed by what [Seal]
    made, [len(p) + 28] bytes in all; and every envelope that [EncryptData]
    returns has at least 28 bytes. *)
Theorem envelope_length (rnd p key : bytes) :
  length key = 32%nat -> (12 <= length rnd)%nat ->
  (exists env,
     EncryptData rnd p key = Ok env /\
     take 12 env = take 12 rnd /\
     drop 12 env = Seal key (take 12 rnd) p /\
     length (drop 12 env) = (length p + 16)%nat /\
     length env = (length p + 28)%nat) /\
  (forall rnd' p' key' env' : bytes,
     EncryptData rnd' p' key' = Ok env' -> (28 <= length env')%nat).
Proof using Seal_length.
  intros Hk Hr.
  assert (Hn : forall r : bytes, (12 <= length r)%nat -> length (take 12 r) = 12%nat)
    by (intros r ?; rewrite length_take; lia).
  split.
  - eexists. split; [by apply EncryptData_Ok|].
    pose proof (Hn rnd Hr) as Hn12.
    rewrite take_app_length', drop_app_length' by (symmetry; exact Hn12).
    rewrite length_app, Seal_length, Hn12 by (auto using aes_NewCipher_32).
    repeat split. lia.
  - intros rnd' p' key' env' (Hkey & Hrnd & ->)%EncryptData_inv.
    rewrite length_app, Seal_length, Hn by auto. lia.
Qed.

End CipherFacts.

(** C4. Whatever the key and whatever the AEAD, an envelope shorter than
    12 bytes is refused with "encrypted data too short", before the key is
    looked at and without [Open] having a say; and for an envelope of 12
    bytes or more under a key that AES accepts, [Open] is given the first
    12 bytes as the nonce and the rest as the ciphertext with its tag. *)
Theorem decrypt_envelope_framing (aead : GCM) (encryptedData key : bytes) :
  (Go.len encryptedData < 12 ->
   DecryptData encryptedData key = Err ErrTooShort /\
   forall aead' : GCM,
     @DecryptData aead' encryptedData key = @DecryptData aead encryptedData key) /\
  (12 <= Go.len encryptedData -> aes_NewCipher key = Ok key ->
   encryptedData = take 12 encryptedData ++ drop 12 encryptedData /\
   length (take 12 encryptedData) = 12%nat /\
   DecryptData encryptedData key
   = match Open key (take 12 encryptedData) (drop 12 encryptedData) with
     | Some plaintext => Ok plaintext
     | None => Err ErrOpen
     end).
Proof.
  split.
  - intros Hshort. unfold DecryptData.
    destruct (Z.ltb_spec (Go.len encryptedData) 12); [done|lia].
  - intros Hlong Hkey. split; [by rewrite take_drop|].
    split; [unfold Go.len in Hlong; rewrite length_take; lia|].
    unfold DecryptData. destruct (Z.ltb_spec (Go.len encryptedData) 12); [lia|].
    by rewrite Hkey.
Qed.

Lemma decrypt_envelope_framing_witness :
  @DecryptData plain_gcm [x01; x02; x03] [] = Err ErrTooShort.
Proof.
  apply (proj1 (decrypt_envelope_framing plain_gcm [x01; x02; x03] [])).
  vm_compute. reflexivity.
Defined.

(** The AEAD that hides nothing keeps the two promises. *)
Lemma plain_Seal_length (key nonce p : bytes) :
  aes_NewCipher key = Ok key -> length nonce = 12%nat ->
  length (@Seal plain_gcm key nonce p) = (length p + 16)%nat.
Proof. intros _ _. simpl. unfold plain_Seal. by rewrite length_app. Defined.

Lemma plain_Open_Seal (key nonce p : bytes) :
  aes_NewCipher key = Ok key -> length nonce = 12%nat ->
  @Open plain_gcm key nonce (@Seal plain_gcm key nonce p) = Some p.
Proof.
  intros _ _. simpl. unfold plain_Open, plain_Seal.
  rewrite length_app, List.repeat_length, decide_True by lia.
  replace (length p + 16 - 16)%nat with (length p) by lia.
  by rewrite drop_app_length, take_app_length.
Defined.

Lemma encrypt_decrypt_round_trip_witness :
  exists env,
    @EncryptData plain_gcm (repeat x07 12) [x01; x02] (repeat x09 32) = Ok env /\
    @DecryptData plain_gcm env (repeat x09 32) = Ok [x01; x02].
Proof.
  apply (@encrypt_decrypt_round_trip plain_gcm plain_Open_Seal).
  - reflexivity.
  - simpl. lia.
Defined.

Lemma envelope_length_witness :
  exists env,
    @EncryptData plain_gcm (repeat x07 12) [x01; x02] (repeat x09 32) = Ok env /\
    length env = 30%nat.
Proof.
  destruct (@envelope_length plain_gcm plain_Seal_length
              (repeat x07 12) [x01; x02] (repeat x09 32)) as [(env & He & _ & _ & _ & Hl) _].
  - reflexivity.
  - simpl. lia.
  - exists env. split; [exact He|exact Hl].
Defined.

(* ===================================================================== *)
(** * The metadata record and its JSON form *)
(* ===================================================================== *)

Section JsonFacts.

Import Json.

Lemma unmarshal_map_members (l : list (string * string)) : forall old,
  Forall (fun kv => written kv.1 = kv.1 /\ written kv.2 = kv.2) l ->
  unmarshal_map
    (JObject ((fun kv => (written kv.1, JString (written kv.2))) <$> l)) old
  = Ok (foldl (fun (m : gmap string string) kv => <[kv.1 := kv.2]> m) old l).
Proof.
  unfold unmarshal_map.
  induction l as [|[k v] l IH]; intros old Hl; [done|].
  apply Forall_cons in Hl as [[Hk Hv] Hl]. simpl in Hk, Hv.
  rewrite fmap_cons. cbn [foldl fst snd mbind result_bind unmarshal_string].
  rewrite Hk, Hv. apply IH, Hl.
Qed.

(** A map with valid strings is read back as it was written. *)
Lemma unmarshal_marshal_map (m : gmap string string) :
  map_Forall (fun k v => written k = k /\ written v = v) m ->
  unmarshal_map (marshal_map m) ∅ = Ok m.
Proof.
  intros Hm. unfold marshal_map.
  pose proof (merge_sort_Permutation key_le (map_to_list m)) as Hp.
  rewrite unmarshal_map_members.
  - f_equal. rewrite foldl_insert_list_to_map.
    + rewrite (right_id_L ∅ (∪)).
      rewrite <- (list_to_map_to_list m) at 2.
      apply list_to_map_proper; [|done].
      rewrite Hp. apply NoDup_fst_map_to_list.
    + rewrite Hp. apply NoDup_fst_map_to_list.
  - rewrite Hp. apply Forall_forall. intros [k v] Hkv%elem_of_map_to_list.
    by apply (Hm k v).
Qed.

Lemma marshal_map_empty_iff (name : string) (m : gmap string string) :
  omitempty_map name m = [] <-> m = ∅.
Proof. unfold omitempty_map. case_decide; split; done. Qed.

(** Reading back what [Marshal] wrote, into the zero value, gives the
    record back when its strings are valid UTF-8. *)
Lemma Unmarshal_Marshal (md : Metadata) :
  strings_valid md -> Unmarshal (Marshal md) Metadata_zero = Ok md.
Proof.
  destruct md as [fn en ky ch fi ci chs fh].
  unfold strings_valid. cbn [Filename Key FileID FileHash ChunkIDs ChunkHashes].
  intros (Hfn & Hky & Hfi & Hfh & Hci & Hchs).
  apply unmarshal_marshal_map in Hci, Hchs.
  unfold Marshal, Unmarshal, omitempty_string, omitempty_map, Metadata_zero.
  cbn [Filename Encrypted Key Chunked FileID FileHash ChunkIDs ChunkHashes].
  rewrite Hfn, Hky, Hfi, Hfh.
  repeat case_decide; subst;
    repeat (cbn [app foldl fst snd set_field String.eqb Ascii.eqb Bool.eqb
                 mbind result_bind unmarshal_string unmarshal_bool];
            rewrite ?Hci, ?Hchs);
    reflexivity.
Qed.

(** Which optional members the serialized form has: those whose value is
    not empty, whatever the two flags say. *)
Lemma Marshal_members (md : Metadata) :
  (has_member "key" (Marshal md) = false <-> Key md = EmptyString) /\
  (has_member "file_id" (Marshal md) = false <-> FileID md = EmptyString) /\
  (has_member "chunk_ids" (Marshal md) = false <-> ChunkIDs md = ∅) /\
  (has_member "chunk_hashes" (Marshal md) = false <-> ChunkHashes md = ∅) /\
  (has_member "file_hash" (Marshal md) = false <-> FileHash md = EmptyString) /\
  has_member "filename" (Marshal md) = true /\
  has_member "encrypted" (Marshal md) = true /\
  has_member "chunked" (Marshal md) = true.
Proof.
  destruct md as [fn en ky ch fi ci chs fh].
  unfold Marshal, has_member, omitempty_string, omitempty_map.
  cbn [Filename Encrypted Key Chunked FileID FileHash ChunkIDs ChunkHashes].
  repeat case_decide; subst; cbn [app existsb fst String.eqb Ascii.eqb Bool.eqb orb];
    repeat split; intros; done.
Qed.

End JsonFacts.

(* ===================================================================== *)
(** * The command-line tool *)
(* ===================================================================== *)




Section CliFacts.

Context {aead : GCM}.
Variable Sum256 : bytes -> bytes.
Variable base64_EncodeToString : bytes -> string.
Variable base64_DecodeString : string -> result bytes.
Variable json_text : Json.json -> bytes.
Variable swarm_post : list event -> bytes -> result string.
Variable swarm_get : list event -> string -> result bytes.
Variable os_WriteFile : list event -> string -> bytes -> option error.

Local Abbreviation run_download :=
  (download Sum256 base64_DecodeString swarm_get os_WriteFile).
Local Abbreviation run_download_chunks := (download_chunks Sum256 swarm_get).
Local Abbreviation run_upload :=
  (upload Sum256 base64_EncodeToString json_text swarm_post).


(** What [upload] leaves unset in the metadata it builds. *)
Lemma upload_metadata rnd fuel order filename plaintext shouldEncrypt
    chunkSizeBytes tr tr' md cid :
  run_upload rnd fuel order filename plaintext shouldEncrypt chunkSizeBytes tr
  = (tr', Done (md, cid)) ->
  Filename md = filename /\ Encrypted md = shouldEncrypt /\
  (Encrypted md = false -> Key md = EmptyString) /\
  (Chunked md = false -> ChunkIDs md = ∅ /\ ChunkHashes md = ∅) /\
  (Chunked md = true -> FileID md = EmptyString /\ FileHash md = EmptyString).
Proof.
  unfold upload. run_prog. intros Hrun.
  repeat (match type of Hrun with
          | context [match ?x with _ => _ end] =>
              lazymatch x with
              | context [match _ with _ => _ end] => fail
              | _ => destruct x
              end
          end; cbv beta iota in Hrun);
    simplify_eq; cbn; repeat split; done.
Qed.

(** [base64.StdEncoding.DecodeString] of the empty string is the empty
    byte slice. *)
Hypothesis DecodeString_empty : base64_DecodeString EmptyString = Ok [].


End CliFacts.



(* ===================================================================== *)
(** * The serialization contract *)
(* ===================================================================== *)

(** C8, as the code has it. A manifest whose strings are valid UTF-8 is
    read back from its serialized form as it was (a map that was left out
    reads back as the empty map). A field tagged [omitempty] is left out
    exactly when its value is empty, whatever the two flags say; [filename],
    [encrypted] and [chunked] are always there. For the manifests that
    [upload] builds this gives what the claim describes: no [key] when
    [encrypted] is false, no [chunk_ids] and [chunk_hashes] when [chunked]
    is false, no [file_id] and [file_hash] when [chunked] is true. *)
Theorem manifest_serialization (md : Metadata) :
  (Json.strings_valid md ->
   Json.Unmarshal (Json.Marshal md) Metadata_zero = Ok md) /\
  ((Json.has_member "key" (Json.Marshal md) = false <-> Key md = EmptyString) /\
   (Json.has_member "file_id" (Json.Marshal md) = false
    <-> FileID md = EmptyString) /\
   (Json.has_member "chunk_ids" (Json.Marshal md) = false
    <-> ChunkIDs md = ∅) /\
   (Json.has_member "chunk_hashes" (Json.Marshal md) = false
    <-> ChunkHashes md = ∅) /\
   (Json.has_member "file_hash" (Json.Marshal md) = false
    <-> FileHash md = EmptyString) /\
   Json.has_member "filename" (Json.Marshal md) = true /\
   Json.has_member "encrypted" (Json.Marshal md) = true /\
   Json.has_member "chunked" (Json.Marshal md) = true) /\
  (forall (aead : GCM) Sum256 base64_EncodeToString json_text swarm_post
          rnd fuel order filename plaintext shouldEncrypt chunkSizeBytes
          tr tr' cid,
     upload Sum256 base64_EncodeToString json_text swarm_post
       rnd fuel order filename plaintext shouldEncrypt chunkSizeBytes tr
     = (tr', Done (md, cid)) ->
     (Encrypted md = false ->
      Json.has_member "key" (Json.Marshal md) = false) /\
     (Chunked md = false ->
      Json.has_member "chunk_ids" (Json.Marshal md) = false /\
      Json.has_member "chunk_hashes" (Json.Marshal md) = false) /\
     (Chunked md = true ->
      Json.has_member "file_id" (Json.Marshal md) = false /\
      Json.has_member "file_hash" (Json.Marshal md) = false)).
Proof.
  split; [apply Unmarshal_Marshal|]. split; [apply Marshal_members|].
  intros aead Sum256 enc json_text swarm_post rnd fuel order filename plaintext
    shouldEncrypt chunkSizeBytes tr tr' cid Hrun.
  apply upload_metadata in Hrun as (_ & _ & Hkey & Hplain & Hchunked).
  destruct (Marshal_members md) as (Mkey & Mfid & Mids & Mhashes & Mfh & _).
  split; [|split].
  - intros Hen. apply Mkey, Hkey, Hen.
  - intros Hch. destruct (Hplain Hch). split; [by apply Mids|by apply Mhashes].
  - intros Hch. destruct (Hchunked Hch). split; [by apply Mfid|by apply Mfh].
Qed.

Lemma manifest_serialization_witness :
  let md := {| Filename := "a.txt"; Encrypted := false; Key := "";
               Chunked := true; FileID := "";
               ChunkIDs := <["2"%string := "r2"%string]> {["1"%string := "r1"%string]};
               ChunkHashes := <["2"%string := "h2"%string]> {["1"%string := "h1"%string]};
               FileHash := "" |} in
  Json.Unmarshal (Json.Marshal md) Metadata_zero = Ok md.
Proof.
  cbv zeta. apply manifest_serialization.
  unfold Json.strings_valid. cbn [Filename Key FileID FileHash ChunkIDs ChunkHashes].
  do 4 (split; [reflexivity|]).
  split; (apply map_Forall_insert_2; [split; reflexivity|]);
    apply map_Forall_singleton; split; reflexivity.
Defined.

(** C8 as stated fails, twice over: a manifest with [encrypted = false]
    and a key set is serialized with its [key] member; and a manifest whose
    file name is not valid UTF-8 is not read back as it was, the encoder
    having written U+FFFD for the offending byte. *)
Lemma manifest_serialization_counterexample :
  let md := {| Filename := "f"; Encrypted := false; Key := "k";
               Chunked := false; FileID := "r"; ChunkIDs := ∅;
               ChunkHashes := ∅; FileHash := "h" |} in
  let md' := {| Filename := String (ascii_of_N 255) EmptyString;
                Encrypted := false; Key := ""; Chunked := false;
                FileID := "r"; ChunkIDs := ∅; ChunkHashes := ∅;
                FileHash := "h" |} in
  (Encrypted md = false /\ Json.has_member "key" (Json.Marshal md) = true) /\
  Json.Unmarshal (Json.Marshal md') Metadata_zero <> Ok md'.
Proof.
  cbv zeta. split; [split; reflexivity|]. vm_compute. discriminate.
Qed.

(* ===================================================================== *)
(** * Further properties of the cipher *)
(* ===================================================================== *)

Lemma aes_NewCipher_Ok_iff (key : bytes) :
  aes_NewCipher key = Ok key
  <-> (length key = 16 \/ length key = 24 \/ length key = 32)%nat.
Proof.
  unfold aes_NewCipher. cbv zeta.
  destruct (Nat.eqb_spec (length key) 16) as [->|?]; [simpl; split; auto|].
  destruct (Nat.eqb_spec (length key) 24) as [->|?]; [simpl; split; auto|].
  destruct (Nat.eqb_spec (length key) 32) as [->|?]; [simpl; split; auto|].
  simpl. split; [done|lia].
Qed.

Lemma aes_NewCipher_Err (key : bytes) :
  ~ (length key = 16 \/ length key = 24 \/ length key = 32)%nat ->
  aes_NewCipher key = Err (KeySizeError (length key)).
Proof.
  intros Hk. unfold aes_NewCipher. cbv zeta.
  destruct (Nat.eqb_spec (length key) 16); [lia|].
  destruct (Nat.eqb_spec (length key) 24); [lia|].
  destruct (Nat.eqb_spec (length key) 32); [lia|]. done.
Qed.



Section CipherMore.

Context {aead : GCM}.

(** X2. [EncryptData] succeeds exactly when the key has 16, 24 or 32 bytes and
    the random source is good for 12 bytes. The key is looked at first: a
    key of another size is a [KeySizeError] whatever the random source
    does, and only then a short random source is an error. *)
Theorem EncryptData_outcome (rnd p key : bytes) :
  ((exists env, EncryptData rnd p key = Ok env)
   <-> (length key = 16 \/ length key = 24 \/ length key = 32)%nat
       /\ (12 <= length rnd)%nat) /\
  (~ (length key = 16 \/ length key = 24 \/ length key = 32)%nat ->
   EncryptData rnd p key = Err (KeySizeError (length key))) /\
  ((length key = 16 \/ length key = 24 \/ length key = 32)%nat ->
   (length rnd < 12)%nat -> EncryptData rnd p key = Err ErrEntropy).
Proof.
  split; [split|split].
  - intros [env (Hk & Hr & _)%EncryptData_inv].
    by apply aes_NewCipher_Ok_iff in Hk.
  - intros [Hk%aes_NewCipher_Ok_iff Hr]. unfold EncryptData.
    rewrite Hk, ReadFull_enough by done. by eexists.
  - intros Hk. unfold EncryptData. by rewrite aes_NewCipher_Err.
  - intros Hk%aes_NewCipher_Ok_iff Hr. unfold EncryptData, ReadFull.
    rewrite Hk. cbn [mbind result_bind]. by rewrite decide_False by lia.
Qed.


(** X3. [DecryptData] returns a plaintext only when the envelope has at least
    12 bytes, the key has an AES size, and [Open] accepted the rest of the
    envelope under the first 12 bytes as nonce; the plaintext is then the
    one [Open] gave. *)
Theorem DecryptData_Ok_iff (encryptedData key p : bytes) :
  DecryptData encryptedData key = Ok p
  <-> 12 <= Go.len encryptedData
      /\ (length key = 16 \/ length key = 24 \/ length key = 32)%nat
      /\ Open key (take 12 encryptedData) (drop 12 encryptedData) = Some p.
Proof.
  unfold DecryptData.
  destruct (Z.ltb_spec (Go.len encryptedData) 12) as [Hs|Hl].
  { split; [done|]. intros [? _]. lia. }
  destruct (decide (length key = 16 \/ length key = 24 \/ length key = 32)%nat)
    as [Hk|Hk].
  - rewrite (proj2 (aes_NewCipher_Ok_iff key) Hk). cbn [mbind result_bind].
    change (cipher_NewGCM key) with (Ok key). cbn [mbind result_bind].
    destruct (Open key _ _) as [q|]; split.
    + by intros [= ->].
    + by intros (_ & _ & [= ->]).
    + done.
    + by intros (_ & _ & ?).
  - rewrite aes_NewCipher_Err by done. split; [done|]. by intros (_ & ? & _).
Qed.

(** X4. The errors of [DecryptData], in the order the code reaches them: a
    short envelope, then the key size, then the tag. *)
Theorem DecryptData_errors (encryptedData key : bytes) :
  (Go.len encryptedData < 12 ->
   DecryptData encryptedData key = Err ErrTooShort) /\
  (12 <= Go.len encryptedData ->
   ~ (length key = 16 \/ length key = 24 \/ length key = 32)%nat ->
   DecryptData encryptedData key = Err (KeySizeError (length key))) /\
  (12 <= Go.len encryptedData ->
   (length key = 16 \/ length key = 24 \/ length key = 32)%nat ->
   Open key (take 12 encryptedData) (drop 12 encryptedData) = None ->
   DecryptData encryptedData key = Err ErrOpen).
Proof.
  unfold DecryptData. split; [|split].
  - intros Hs. by destruct (Z.ltb_spec (Go.len encryptedData) 12); [|lia].
  - intros Hl Hk. destruct (Z.ltb_spec (Go.len encryptedData) 12); [lia|].
    by rewrite aes_NewCipher_Err.
  - intros Hl Hk%aes_NewCipher_Ok_iff Ho.
    destruct (Z.ltb_spec (Go.len encryptedData) 12); [lia|].
    rewrite Hk. cbn [mbind result_bind].
    change (cipher_NewGCM key) with (Ok key). cbn [mbind result_bind].
    by rewrite Ho.
Qed.


End CipherMore.

Lemma EncryptData_outcome_witness :
  @EncryptData plain_gcm [] [x01] (repeat x09 31)
  = Err (KeySizeError (length (repeat x09 31))).
Proof.
  apply (proj1 (proj2 (@EncryptData_outcome plain_gcm [] [x01] (repeat x09 31)))).
  simpl. lia.
Defined.

Lemma DecryptData_errors_witness :
  @DecryptData plain_gcm (repeat x00 12) (repeat x09 31)
  = Err (KeySizeError (length (repeat x09 31))).
Proof.
  apply (proj1 (proj2 (@DecryptData_errors plain_gcm (repeat x00 12) (repeat x09 31)))).
  - vm_compute. discriminate.
  - simpl. lia.
Defined.

Lemma DecryptData_Ok_iff_witness :
  @DecryptData plain_gcm (repeat x00 28) (repeat x09 32) = Ok [].
Proof.
  apply (@DecryptData_Ok_iff plain_gcm). split; [|split].
  - vm_compute. discriminate.
  - right. right. reflexivity.
  - vm_compute. reflexivity.
Defined.

(* ===================================================================== *)
(** * Further properties of the chunker *)
(* ===================================================================== *)

(** An outcome that is not for want of fuel stays the same with more. *)
Lemma SplitIntoChunks_loop_more_fuel Sum256 (data : bytes) s fuel :
  forall i num chunks hashes o d,
  SplitIntoChunks_loop Sum256 fuel data s i num chunks hashes = o ->
  o <> OutOfFuel ->
  SplitIntoChunks_loop Sum256 (fuel + d) data s i num chunks hashes = o.
Proof.
  induction fuel as [|fuel IH]; intros i num chunks hashes o d Ho Hne;
    cbn [SplitIntoChunks_loop Nat.add] in *; [congruence|].
  destruct (i <? Go.len data); [|done].
  destruct (Go.slice _ _ _); [|done]. by apply IH.
Qed.

(** Whatever the fuel, a split with a positive chunk size that returns,
    returns the numbered windows. *)
Lemma SplitIntoChunks_Returned_inv Sum256 (p : bytes) s fuel chunks hashes :
  0 < s <= Go.int_max -> Go.len p <= 2 ^ 62 ->
  SplitIntoChunks Sum256 fuel p s = Returned (chunks, hashes) ->
  chunks = expected_chunks p s /\ hashes = expected_hashes Sum256 p s.
Proof.
  intros Hs Hlen Hret. unfold SplitIntoChunks in Hret.
  pose proof (num_windows_range p s ltac:(lia)) as Hr.
  apply (SplitIntoChunks_loop_more_fuel _ _ _ _ _ _ _ _ _
           (S (Z.to_nat (num_windows p s)))) in Hret; [|done].
  fold (SplitIntoChunks Sum256 (fuel + S (Z.to_nat (num_windows p s))) p s) in Hret.
  rewrite SplitIntoChunks_returns in Hret by lia. by injection Hret as <- <-.
Qed.

(** A negative chunk size on a payload that is not empty: the first slice
    expression panics. *)
Lemma SplitIntoChunks_nonpositive_panics Sum256 (p : bytes) s fuel :
  Go.in_int s -> s < 0 -> p <> [] -> (0 < fuel)%nat ->
  SplitIntoChunks Sum256 fuel p s = Panicked.
Proof.
  intros Hint Hneg Hp Hfuel. destruct fuel as [|fuel]; [lia|].
  unfold SplitIntoChunks. cbn [SplitIntoChunks_loop].
  assert (Hlen : 0 < Go.len p) by (destruct p; [done|unfold Go.len; simpl; lia]).
  destruct (Z.ltb_spec 0 (Go.len p)); [|lia].
  rewrite Z.add_0_l, wrap_in_int by done.
  destruct (Z.gtb_spec s (Go.len p)); [lia|].
  unfold Go.slice. destruct (Z.leb_spec 0 s); [lia|]. done.
Qed.

Lemma seqZ_split (m n j : Z) :
  0 <= j < n ->
  seqZ m n = seqZ m j ++ (m + j) :: seqZ (m + j + 1) (n - j - 1).
Proof.
  intros Hj. replace n with (j + (n - j)) at 1 by lia.
  rewrite seqZ_app by lia. f_equal.
  rewrite seqZ_cons by lia. repeat (f_equal; try lia).
Qed.

(** X5. No gap detection: when one piece of a split is missing from the map,
    [ReassembleChunks] returns the payload with that window cut out, for
    every order in which the map hands out its keys. *)
Theorem ReassembleChunks_missing_piece (p : bytes) (s j : Z) (order : list string) :
  0 < s -> Go.len p <= 2 ^ 62 -> 1 <= j <= num_windows p s ->
  Go.range_order (delete (Go.Itoa j) (expected_chunks p s)) order ->
  ReassembleChunks order (delete (Go.Itoa j) (expected_chunks p s))
  = take (Z.to_nat ((j - 1) * s)) p ++ drop (Z.to_nat (j * s)) p.
Proof.
  intros Hs Hlen Hj Hord.
  pose proof (num_windows_bounds p s Hs) as Hb.
  pose proof (num_windows_range p s Hs) as Hr.
  set (n := num_windows p s) in *.
  set (rest := seqZ 1 (j - 1) ++ seqZ (j + 1) (n - j)).
  assert (Hseq : seqZ 1 n = seqZ 1 (j - 1) ++ j :: seqZ (j + 1) (n - j)).
  { rewrite (seqZ_split 1 n (j - 1)) by lia. do 2 f_equal; [lia|f_equal; lia]. }
  assert (Hin : forall k, k ∈ rest -> 1 <= k <= n /\ k <> j).
  { intros k [Hk%elem_of_seqZ|Hk%elem_of_seqZ]%elem_of_app; lia. }
  assert (Hkeys : (fun k => (Go.Atoi k).1) <$> order ≡ₚ rest).
  { unfold Go.range_order in Hord.
    pose proof (map_to_list_delete (expected_chunks p s) (Go.Itoa j)
                  (window p s j) (expected_chunks_lookup p s j Hs Hlen Hj)) as Hd.
    assert (Hall : Go.Itoa j :: (map_to_list (delete (Go.Itoa j)
                     (expected_chunks p s))).*1 ≡ₚ Go.Itoa <$> seqZ 1 n).
    { change (Go.Itoa j :: ?l.*1) with (((Go.Itoa j, window p s j) :: l).*1).
      rewrite Hd. unfold expected_chunks.
      rewrite map_to_list_to_map by (apply numerals_NoDup; lia).
      by rewrite <- list_fmap_compose. }
    fold n in Hall. rewrite Hseq, fmap_app, fmap_cons in Hall.
    rewrite <- Permutation_middle in Hall. apply Permutation_cons_inv in Hall.
    rewrite Hord, Hall, <- fmap_app, <- list_fmap_compose. fold rest.
    assert (E : ((fun k => (Go.Atoi k).1) ∘ Go.Itoa) <$> rest = id <$> rest).
    { apply Forall_fmap_ext_1, Forall_forall.
      intros k Hk%Hin. simpl. rewrite Atoi_Itoa; [done|].
      unfold Go.in_int, Go.int_min, Go.int_max. lia. }
    by rewrite E, list_fmap_id. }
  assert (Hsorted : Sorted Z.le rest).
  { apply StronglySorted_Sorted, StronglySorted_app.
    split; [|split; (apply Sorted_StronglySorted; [apply _|apply Sorted_seqZ])].
    intros x1 x2 Hx1%elem_of_seqZ Hx2%elem_of_seqZ. lia. }
  rewrite ReassembleChunks_eq, (sort_Ints_of_Sorted rest) by done.
  assert (Hwin : (fun k => Go.index_bytes (delete (Go.Itoa j)
                    (expected_chunks p s)) (Go.Itoa k)) <$> rest
                 = window p s <$> rest).
  { apply Forall_fmap_ext_1, Forall_forall. intros k [Hk Hne]%Hin.
    unfold Go.index_bytes. rewrite lookup_delete_ne.
    - by rewrite expected_chunks_lookup.
    - intros Heq%Itoa_inj; [done| |];
        unfold Go.in_int, Go.int_min, Go.int_max; lia. }
  rewrite Hwin. unfold rest. rewrite fmap_app, concat_app.
  rewrite <- (Z2Nat.id (j - 1)) at 1 by lia.
  rewrite <- (Z2Nat.id (n - j)) by lia.
  rewrite !concat_windows by lia. cbn [Z.sub Z.mul Z.to_nat drop].
  change (Z.to_nat ((1 - 1) * s)) with 0%nat. cbn [drop].
  f_equal.
  - f_equal. nia.
  - replace (j + 1 - 1) with j by lia. apply take_ge.
    rewrite length_drop. unfold Go.len in *. nia.
Qed.

Lemma ReassembleChunks_missing_piece_witness :
  ReassembleChunks ["1"; "3"]%string
    (delete (Go.Itoa 2) (expected_chunks [x01; x02; x03; x04; x05] 2))
  = [x01; x02] ++ [x05].
Proof.
  apply (ReassembleChunks_missing_piece [x01; x02; x03; x04; x05] 2 2).
  - lia.
  - vm_compute. discriminate.
  - vm_compute. split; discriminate.
  - vm_compute. first [reflexivity | apply Permutation_swap].
Defined.

(* ===================================================================== *)
(** * Further properties of the command-line tool *)
(* ===================================================================== *)

Section CliMore.

Context {aead : GCM}.
Variable Sum256 : bytes -> bytes.
Variable base64_EncodeToString : bytes -> string.
Variable base64_DecodeString : string -> result bytes.
Variable json_text : Json.json -> bytes.
Variable swarm_post : list event -> bytes -> result string.
Variable swarm_get : list event -> string -> result bytes.
Variable os_WriteFile : list event -> string -> bytes -> option error.

Local Abbreviation the_download :=
  (download Sum256 base64_DecodeString swarm_get os_WriteFile).
Local Abbreviation the_download_chunks := (download_chunks Sum256 swarm_get).
Local Abbreviation the_upload :=
  (upload Sum256 base64_EncodeToString json_text swarm_post).
Local Abbreviation the_upload_chunks := (upload_chunks swarm_post).

(** A piece as the download loop accepts it: its digest is the one the
    manifest records under its key. *)
Local Abbreviation verified metadata k d :=
  (Go.index_string (ChunkHashes metadata) k = Go.Sprintf_x (Sum256 d)).

(** The piece loop, when it comes to its end: one fetch per key, in the
    order of the keys, and every piece kept has the recorded digest. *)
Lemma download_chunks_Done order metadata : forall acc tr tr' chunks,
  the_download_chunks order metadata acc tr = (tr', Done chunks) ->
  tr' = tr ++ ((fun k => EvFetch (Go.index_string (ChunkIDs metadata) k)) <$> order)
  /\ (forall k, k ∈ order \/ (exists d, acc !! k = Some d /\ verified metadata k d) ->
                exists d, chunks !! k = Some d /\ verified metadata k d)
  /\ (forall k, is_Some (chunks !! k) <-> is_Some (acc !! k) \/ k ∈ order)
  /\ (forall k d, chunks !! k = Some d ->
        acc !! k = Some d \/
        exists t, swarm_get t (Go.index_string (ChunkIDs metadata) k) = Ok d).
Proof.
  induction order as [|k0 order IH]; intros acc tr tr' chunks;
    cbn [download_chunks]; run_prog.
  - intros [= <- <-]. split; [by rewrite fmap_nil, (right_id_L [] (++))|].
    split; [|split].
    + intros k [Hk|Hk]; [by apply elem_of_nil in Hk|done].
    + intros k. split; [auto|]. intros [?|Hk]; [done|by apply elem_of_nil in Hk].
    + auto.
  - destruct (swarm_get tr _) as [d0|e] eqn:Hget; [|done].
    case_decide as Hv; [done|]. try apply dec_stable in Hv.
    intros (-> & Hgood & Hkeys & Hfrom)%IH.
    split; [|split; [|split]]; cycle 3.
    { intros k d [Hacc|?]%Hfrom; [|by right].
      destruct (decide (k = k0)) as [->|Hne].
      - rewrite lookup_insert_eq in Hacc. injection Hacc as <-. right. by eexists.
      - rewrite lookup_insert_ne in Hacc by done. by left. }
    + by rewrite <- (assoc_L (++)).
    + intros k Hk. apply Hgood.
      destruct (decide (k = k0)) as [->|Hne].
      * right. exists d0. by rewrite lookup_insert_eq.
      * destruct Hk as [[?|?]%elem_of_cons|Hk]; [done|by left|].
        right. by rewrite lookup_insert_ne.
    + intros k. rewrite Hkeys, elem_of_cons.
      destruct (decide (k = k0)) as [->|Hne].
      * rewrite lookup_insert_eq. split; [auto|]. intros _. left. by eexists.
      * rewrite lookup_insert_ne by done.
        split; [intros [?|?]; auto|intros [?|[?|?]]; [auto|done|auto]].
Qed.

(** The piece loop, when it stops early: it stopped at a fetch or at a
    digest, after fetching a beginning of the keys. *)
Lemma download_chunks_Fatal order metadata : forall acc tr tr' f,
  the_download_chunks order metadata acc tr = (tr', Fatal f) ->
  exists done_ k,
    done_ ++ [k] `prefix_of` order /\
    tr' = tr ++ ((fun k => EvFetch (Go.index_string (ChunkIDs metadata) k))
                   <$> (done_ ++ [k])) /\
    ((exists e, f = FailedToDownloadChunk k e) \/ f = ChunkIntegrityFailed k).
Proof.
  induction order as [|k0 order IH]; intros acc tr tr' f;
    cbn [download_chunks]; run_prog; [done|].
  destruct (swarm_get tr _) as [d0|e].
  - case_decide as Hv.
    + intros [= <- <-]. exists [], k0. split; [by apply prefix_cons, prefix_nil|].
      split; [done|by right].
    + intros (done_ & k & Hpre & -> & Hf)%IH. exists (k0 :: done_), k.
      split; [by apply prefix_cons|]. split; [|done].
      by rewrite <- (assoc_L (++)).
  - intros [= <- <-]. exists [], k0. split; [by apply prefix_cons, prefix_nil|].
    split; [done|left; by eexists].
Qed.

(** X6. What [download] does to the outside world: it fetches, then writes
    at most one file, under the name the manifest gives, as its last
    event; a run that stops before the write has written nothing. The
    fetches are those of a beginning of the piece keys in the order the
    map hands them out, or the single fetch of [file_id]. *)
Theorem download_events (metadata : Metadata) (order order' : list string)
    (tr : list event) :
  exists refs,
    (if Chunked metadata
     then exists keys, keys `prefix_of` order /\
            refs = (fun k => Go.index_string (ChunkIDs metadata) k) <$> keys
     else refs = [FileID metadata]) /\
    (((the_download order order' metadata tr).1 = tr ++ (EvFetch <$> refs) /\
      exists f, (the_download order order' metadata tr).2 = Fatal f) \/
     (exists data,
        (the_download order order' metadata tr).1
        = tr ++ (EvFetch <$> refs) ++ [EvWriteFile (Filename metadata) data])).
Proof.
  unfold download. run_prog.
  assert (Hdone : forall (t : list event) (refs : list string),
    t = tr ++ (EvFetch <$> refs) -> forall (r : list event * exit unit) payload,
    r = (let (tr1, e) :=
       (if Encrypted metadata
        then match base64_DecodeString (Key metadata) with
             | Ok encryptionKey =>
                 match DecryptData payload encryptionKey with
                 | Ok finalData => fun tr0 : list event => (tr0, Done finalData)
                 | Err e => fun tr0 : list event => (tr0, Fatal (DecryptionFailed e))
                 end
             | Err e => fun tr0 : list event => (tr0, Fatal (FailedToDecodeKey e))
             end
        else fun tr0 : list event => (tr0, Done payload)) t in
     match e with
     | Done a =>
         match os_WriteFile tr1 (Filename metadata) a with
         | Some e0 => fun tr0 : list event => (tr0, Fatal (FailedToSaveFile e0))
         | None => fun tr0 : list event => (tr0, Done tt)
         end (tr1 ++ [EvWriteFile (Filename metadata) a])
     | Fatal f => (tr1, Fatal f)
     end) ->
    (r.1 = tr ++ (EvFetch <$> refs) /\ exists f, r.2 = Fatal f) \/
    (exists data,
       r.1 = tr ++ (EvFetch <$> refs) ++ [EvWriteFile (Filename metadata) data])).
  { intros t refs -> r payload ->. destruct (Encrypted metadata).
    - destruct (base64_DecodeString _) as [key|e];
        [|left; split; [done|by eexists]].
      destruct (DecryptData payload key) as [final|e];
        [|left; split; [done|by eexists]].
      right. exists final. rewrite (assoc_L (++)).
      by destruct (os_WriteFile _ _ final).
    - right. exists payload. rewrite (assoc_L (++)).
      by destruct (os_WriteFile _ _ payload). }
  destruct (Chunked metadata).
  - destruct (the_download_chunks order metadata ∅ tr) as [tr1 [chunks|f]] eqn:Hc.
    + apply download_chunks_Done in Hc as (-> & _ & _ & _).
      exists ((fun k => Go.index_string (ChunkIDs metadata) k) <$> order).
      split; [by exists order|].
      eapply Hdone; [|reflexivity]. by rewrite <- list_fmap_compose.
    + apply download_chunks_Fatal in Hc as (done_ & k & Hpre & -> & _).
      exists ((fun k => Go.index_string (ChunkIDs metadata) k) <$> (done_ ++ [k])).
      split; [by eexists|]. rewrite <- list_fmap_compose.
      left. split; [done|by eexists].
  - exists [FileID metadata]. split; [done|].
    destruct (swarm_get tr _) as [data|e]; [|left; split; [done|by eexists]].
    case_decide; [left; split; [done|by eexists]|].
    eapply Hdone; reflexivity.
Qed.

(** X7. A download that ends well has verified what it wrote: in a chunked
    download every key of the order was fetched, every piece kept has the
    digest the manifest records, and the payload is the reassembly of those
    pieces; otherwise the payload is what the fetch of [file_id] gave, with
    the recorded digest. The file written is the payload, or what
    [DecryptData] made of it under the decoded key. *)
Theorem download_Done (metadata : Metadata) (order order' : list string)
    (tr tr' : list event) :
  the_download order order' metadata tr = (tr', Done tt) ->
  exists refs payload final,
    tr' = tr ++ (EvFetch <$> refs) ++ [EvWriteFile (Filename metadata) final] /\
    os_WriteFile (tr ++ (EvFetch <$> refs)) (Filename metadata) final = None /\
    (if Chunked metadata
     then refs = (fun k => Go.index_string (ChunkIDs metadata) k) <$> order /\
          exists chunks : gmap string bytes,
            payload = ReassembleChunks order' chunks /\
            (forall k, is_Some (chunks !! k) <-> k ∈ order) /\
            (forall k d, chunks !! k = Some d ->
               verified metadata k d /\
               exists t, swarm_get t (Go.index_string (ChunkIDs metadata) k) = Ok d)
     else refs = [FileID metadata] /\
          swarm_get tr (FileID metadata) = Ok payload /\
          FileHash metadata = Go.Sprintf_x (Sum256 payload)) /\
    (if Encrypted metadata
     then exists key, base64_DecodeString (Key metadata) = Ok key /\
                      DecryptData payload key = Ok final
     else final = payload).
Proof.
  unfold download. run_prog.
  assert (Htail : forall (t t' : list event) (payload : bytes),
    (let (tr1, e) :=
       (if Encrypted metadata
        then match base64_DecodeString (Key metadata) with
             | Ok encryptionKey =>
                 match DecryptData payload encryptionKey with
                 | Ok finalData => fun tr0 : list event => (tr0, Done finalData)
                 | Err e => fun tr0 : list event => (tr0, Fatal (DecryptionFailed e))
                 end
             | Err e => fun tr0 : list event => (tr0, Fatal (FailedToDecodeKey e))
             end
        else fun tr0 : list event => (tr0, Done payload)) t in
     match e with
     | Done a =>
         match os_WriteFile tr1 (Filename metadata) a with
         | Some e0 => fun tr0 : list event => (tr0, Fatal (FailedToSaveFile e0))
         | None => fun tr0 : list event => (tr0, Done tt)
         end (tr1 ++ [EvWriteFile (Filename metadata) a])
     | Fatal f => (tr1, Fatal f)
     end) = (t', Done tt) ->
    exists final,
      t' = t ++ [EvWriteFile (Filename metadata) final] /\
      os_WriteFile t (Filename metadata) final = None /\
      (if Encrypted metadata
       then exists key, base64_DecodeString (Key metadata) = Ok key /\
                        DecryptData payload key = Ok final
       else final = payload)).
  { intros t t' payload. destruct (Encrypted metadata).
    - destruct (base64_DecodeString _) as [key|e]; [|done].
      destruct (DecryptData payload key) as [final|e] eqn:Hd; [|done].
      destruct (os_WriteFile t _ final) eqn:Hw; [done|].
      intros [= <-]. exists final. split; [done|]. split; [done|]. by exists key.
    - destruct (os_WriteFile t _ payload) eqn:Hw; [done|].
      intros [= <-]. by exists payload. }
  destruct (Chunked metadata).
  - destruct (the_download_chunks order metadata ∅ tr) as [tr1 [chunks|f]] eqn:Hc;
      [|done].
    apply download_chunks_Done in Hc as (-> & Hgood & Hkeys & Hfrom).
    intros (final & -> & Hw & Hfin)%Htail.
    exists ((fun k => Go.index_string (ChunkIDs metadata) k) <$> order),
      (ReassembleChunks order' chunks), final.
    rewrite <- list_fmap_compose, <- (assoc_L (++)).
    split; [done|]. split; [done|]. split; [|done]. split; [done|].
    exists chunks. split; [done|]. split.
    + intros k. rewrite Hkeys, lookup_empty. split; [|auto].
      intros [[? ?]|?]; done.
    + intros k d Hd. split.
      * destruct (Hgood k) as (d' & Hd' & Hv); [|congruence].
        left. destruct (proj1 (Hkeys k)) as [[? He]|?]; [by eexists| |done].
        by rewrite lookup_empty in He.
      * destruct (Hfrom k d Hd) as [He|?]; [|done]. by rewrite lookup_empty in He.
  - destruct (swarm_get tr _) as [data|e] eqn:Hget; [|done].
    case_decide as Hv; [done|]. try apply dec_stable in Hv.
    intros (final & -> & Hw & Hfin)%Htail.
    exists [FileID metadata], data, final. rewrite <- (assoc_L (++)). done.
Qed.

(** The upload loop, when it comes to its end: one upload per key, in
    the order of the keys, and every reference kept is what the gateway
    answered for the piece of that key. *)
Lemma upload_chunks_Done order (chunks : gmap string bytes) :
  forall acc tr tr' ids,
  the_upload_chunks order chunks acc tr = (tr', Done ids) ->
  tr' = tr ++ ((fun k => EvUpload (Go.index_bytes chunks k)) <$> order)
  /\ (forall k, is_Some (ids !! k) <-> is_Some (acc !! k) \/ k ∈ order)
  /\ (forall k ref, ids !! k = Some ref ->
        acc !! k = Some ref \/
        exists t, swarm_post t (Go.index_bytes chunks k) = Ok ref).
Proof.
  induction order as [|k0 order IH]; intros acc tr tr' ids;
    cbn [upload_chunks]; run_prog.
  - intros [= <- <-]. split; [by rewrite fmap_nil, (right_id_L [] (++))|]. split.
    + intros k. split; [auto|]. intros [?|Hk]; [done|by apply elem_of_nil in Hk].
    + auto.
  - destruct (swarm_post tr _) as [ref0|e] eqn:Hpost; [|done].
    intros (-> & Hkeys & Hrefs)%IH. split; [|split].
    + by rewrite <- (assoc_L (++)).
    + intros k. rewrite Hkeys, elem_of_cons.
      destruct (decide (k = k0)) as [->|Hne].
      * rewrite lookup_insert_eq. split; [auto|]. intros _. left. by eexists.
      * rewrite lookup_insert_ne by done.
        split; [intros [?|?]; auto|intros [?|[?|?]]; [auto|done|auto]].
    + intros k ref [Hacc|Hpost']%Hrefs; [|by right].
      destruct (decide (k = k0)) as [->|Hne].
      * rewrite lookup_insert_eq in Hacc. injection Hacc as <-. right. by eexists.
      * rewrite lookup_insert_ne in Hacc by done. by left.
Qed.

(** The inversion of a successful [upload], for the proofs below. *)
Lemma upload_Done_inv rnd fuel order filename (plaintext : bytes)
    (shouldEncrypt : bool) chunkSizeBytes tr tr' md cid :
  the_upload rnd fuel order filename plaintext shouldEncrypt chunkSizeBytes tr
  = (tr', Done (md, cid)) ->
  exists (payload : bytes) (uploads : list bytes),
    Filename md = filename /\ Encrypted md = shouldEncrypt /\
    (if shouldEncrypt
     then EncryptData (drop 32 rnd) plaintext (take 32 rnd) = Ok payload /\
          (32 <= length rnd)%nat /\
          Key md = base64_EncodeToString (take 32 rnd)
     else payload = plaintext /\ Key md = EmptyString) /\
    (if Chunked md
     then Go.len payload > chunkSizeBytes /\
          FileID md = EmptyString /\ FileHash md = EmptyString /\
          exists chunks,
            SplitIntoChunks Sum256 fuel payload chunkSizeBytes
            = Returned (chunks, ChunkHashes md) /\
            uploads = (fun k => Go.index_bytes chunks k) <$> order /\
            (forall k, is_Some (ChunkIDs md !! k) <-> k ∈ order) /\
            (forall k ref, ChunkIDs md !! k = Some ref ->
               exists t, swarm_post t (Go.index_bytes chunks k) = Ok ref)
     else Go.len payload <= chunkSizeBytes /\
          ChunkIDs md = ∅ /\ ChunkHashes md = ∅ /\
          uploads = [payload] /\
          swarm_post tr payload = Ok (FileID md) /\
          FileHash md = Go.Sprintf_x (Sum256 payload)) /\
    tr' = tr ++ (EvUpload <$> uploads) ++ [EvUpload (json_text (Json.Marshal md))] /\
    swarm_post (tr ++ (EvUpload <$> uploads)) (json_text (Json.Marshal md)) = Ok cid.
Proof.
  unfold upload, GenerateKey, ReadFull. run_prog. intros Hrun.
  assert (Hstage : exists (payload : bytes) md0,
    Filename md0 = filename /\ Encrypted md0 = shouldEncrypt /\
    Chunked md0 = false /\ FileID md0 = EmptyString /\ FileHash md0 = EmptyString /\
    ChunkIDs md0 = ∅ /\ ChunkHashes md0 = ∅ /\
    (if shouldEncrypt
     then EncryptData (drop 32 rnd) plaintext (take 32 rnd) = Ok payload /\
          (32 <= length rnd)%nat /\
          Key md0 = base64_EncodeToString (take 32 rnd)
     else payload = plaintext /\ Key md0 = EmptyString) /\
    (let (tr1, e) :=
       (if Go.len payload >? chunkSizeBytes
        then match SplitIntoChunks Sum256 fuel payload chunkSizeBytes with
             | Returned (chunks, chunkHashes) =>
                 fun tr0 : list event =>
                   let (tr2, e) := the_upload_chunks order chunks ∅ tr0 in
                   match e with
                   | Done a =>
                       (tr2, Done {| Filename := Filename md0;
                                     Encrypted := Encrypted md0;
                                     Key := Key md0; Chunked := true;
                                     FileID := FileID md0; ChunkIDs := a;
                                     ChunkHashes := chunkHashes;
                                     FileHash := FileHash md0 |})
                   | Fatal f => (tr2, Fatal f)
                   end
             | Panicked => fun tr0 : list event => (tr0, Fatal RuntimePanic)
             | OutOfFuel => fun tr0 : list event => (tr0, Fatal NoFuel)
             end
        else fun tr0 : list event =>
               match swarm_post tr0 payload with
               | Ok fileID =>
                   fun tr2 : list event =>
                     (tr2, Done {| Filename := Filename md0;
                                   Encrypted := Encrypted md0;
                                   Key := Key md0; Chunked := false;
                                   FileID := fileID; ChunkIDs := ChunkIDs md0;
                                   ChunkHashes := ChunkHashes md0;
                                   FileHash := Go.Sprintf_x (Sum256 payload) |})
               | Err e => fun tr2 : list event => (tr2, Fatal (FailedToUploadFile e))
               end (tr0 ++ [EvUpload payload])) tr in
     match e with
     | Done a =>
         match swarm_post tr1 (json_text (Json.Marshal a)) with
         | Ok metadataCID => fun tr0 : list event => (tr0, Done (a, metadataCID))
         | Err e0 => fun tr0 : list event => (tr0, Fatal (FailedToUploadMetadata e0))
         end (tr1 ++ [EvUpload (json_text (Json.Marshal a))])
     | Fatal f => (tr1, Fatal f)
     end) = (tr', Done (md, cid))).
  { destruct shouldEncrypt.
    - destruct (decide (32 <= length rnd)%nat) as [Hr|]; [|done].
      destruct (EncryptData (drop 32 rnd) plaintext (take 32 rnd))
        as [payload|e] eqn:He; [|done].
      eexists payload, _. repeat (split; [|try exact Hrun]); try done.
    - eexists plaintext, _. repeat (split; [|try exact Hrun]); try done. }
  clear Hrun. destruct Hstage as (payload & md0 & Hfn & Hen & Hch & Hfi & Hfh
    & Hci & Hchs & Hkey & Hrun).
  destruct (Z.gtb_spec (Go.len payload) chunkSizeBytes) as [Hbig|Hsmall].
  - destruct (SplitIntoChunks Sum256 fuel payload chunkSizeBytes)
      as [[chunks hashes]| |] eqn:Hsplit; [|done|done].
    destruct (the_upload_chunks order chunks ∅ tr) as [tr1 [ids|f]] eqn:Hup;
      [|done].
    apply upload_chunks_Done in Hup as (-> & Hkeys & Hrefs).
    destruct (swarm_post _ _) as [metadataCID|e] eqn:Hmeta; [|done].
    injection Hrun as <- <- <-.
    exists payload, ((fun k => Go.index_bytes chunks k) <$> order).
    cbn [Filename Encrypted Key Chunked FileID ChunkIDs ChunkHashes FileHash].
    rewrite <- list_fmap_compose, <- (assoc_L (++)).
    repeat (split; [done|]). split; [|done].
    split; [lia|]. repeat (split; [done|]).
    exists chunks. split; [done|]. split; [done|]. split.
    + intros k. rewrite Hkeys, lookup_empty. split; [|auto].
      intros [[? ?]|?]; done.
    + intros k ref [Hempty|?]%Hrefs; [|done]. by rewrite lookup_empty in Hempty.
  - destruct (swarm_post tr payload) as [fileID|e] eqn:Hpost; [|done].
    destruct (swarm_post _ _) as [metadataCID|e] eqn:Hmeta in Hrun; [|done].
    injection Hrun as <- <- <-.
    exists payload, [payload].
    cbn [Filename Encrypted Key Chunked FileID ChunkIDs ChunkHashes FileHash
         fmap list_fmap].
    rewrite <- (assoc_L (++)). repeat (split; [done|]). done.
Qed.

(** X8. What a successful [upload] has done. The payload is the plaintext, or
    the envelope [EncryptData] made of it under a fresh key from the first
    32 random bytes, with the nonce from the 12 bytes after them. When the
    payload is longer than the chunk size it was split, one upload was made
    per key of [order], and the manifest is chunked, with the references the
    gateway answered and the digests of the split; otherwise the payload was
    uploaded whole and the manifest records its reference and digest. The
    upload of the JSON text of the manifest is the last event. *)
Theorem upload_Done rnd fuel order filename (plaintext : bytes)
    (shouldEncrypt : bool) chunkSizeBytes tr tr' md cid :
  the_upload rnd fuel order filename plaintext shouldEncrypt chunkSizeBytes tr
  = (tr', Done (md, cid)) ->
  exists (payload : bytes) (uploads : list bytes),
    Filename md = filename /\ Encrypted md = shouldEncrypt /\
    (if shouldEncrypt
     then EncryptData (drop 32 rnd) plaintext (take 32 rnd) = Ok payload /\
          (32 <= length rnd)%nat /\
          Key md = base64_EncodeToString (take 32 rnd)
     else payload = plaintext /\ Key md = EmptyString) /\
    (if Chunked md
     then Go.len payload > chunkSizeBytes /\
          FileID md = EmptyString /\ FileHash md = EmptyString /\
          exists chunks,
            SplitIntoChunks Sum256 fuel payload chunkSizeBytes
            = Returned (chunks, ChunkHashes md) /\
            uploads = (fun k => Go.index_bytes chunks k) <$> order /\
            (forall k, is_Some (ChunkIDs md !! k) <-> k ∈ order) /\
            (forall k ref, ChunkIDs md !! k = Some ref ->
               exists t, swarm_post t (Go.index_bytes chunks k) = Ok ref)
     else Go.len payload <= chunkSizeBytes /\
          ChunkIDs md = ∅ /\ ChunkHashes md = ∅ /\
          uploads = [payload] /\
          swarm_post tr payload = Ok (FileID md) /\
          FileHash md = Go.Sprintf_x (Sum256 payload)) /\
    tr' = tr ++ (EvUpload <$> uploads) ++ [EvUpload (json_text (Json.Marshal md))] /\
    swarm_post (tr ++ (EvUpload <$> uploads)) (json_text (Json.Marshal md)) = Ok cid.
Proof. apply upload_Done_inv. Qed.


Lemma range_order_elem_of {V} (m : gmap string V) order k :
  Go.range_order m order -> k ∈ order <-> is_Some (m !! k).
Proof.
  unfold Go.range_order. intros ->. rewrite list_elem_of_fmap. split.
  - intros ([k' v] & -> & Hkv%elem_of_map_to_list). by eexists.
  - intros [v Hv]. exists (k, v). split; [done|]. by apply elem_of_map_to_list.
Qed.




(** What the libraries and the gateway promise: AES-GCM opens what it
    sealed and its tag has 16 bytes, base64 decoding undoes the encoding,
    and the gateway gives back under a reference the content it answered
    that reference for. *)
Hypothesis Open_Seal : forall key nonce p : bytes,
  aes_NewCipher key = Ok key -> length nonce = 12%nat ->
  Open key nonce (Seal key nonce p) = Some p.

Hypothesis Seal_length : forall key nonce p : bytes,
  aes_NewCipher key = Ok key -> length nonce = 12%nat ->
  length (Seal key nonce p) = (length p + 16)%nat.

Hypothesis DecodeString_EncodeToString : forall b : bytes,
  base64_DecodeString (base64_EncodeToString b) = Ok b.

Hypothesis swarm_get_post : forall t (data : bytes) reference,
  swarm_post t data = Ok reference ->
  forall t', swarm_get t' reference = Ok data.


(** X10. With a positive chunk size [upload] never builds a chunked manifest
    without pieces: a chunked manifest it built has a reference for every
    digest, and at least two of them. *)
Theorem upload_chunked_manifest rnd fuel order filename (plaintext : bytes)
    (shouldEncrypt : bool) chunkSizeBytes tr tr1 md cid :
  0 < chunkSizeBytes <= Go.int_max ->
  Go.len plaintext + 28 <= 2 ^ 62 ->
  the_upload rnd fuel order filename plaintext shouldEncrypt chunkSizeBytes tr
  = (tr1, Done (md, cid)) ->
  Chunked md = true ->
  Go.range_order (ChunkHashes md) order ->
  (forall k, is_Some (ChunkIDs md !! k) <-> is_Some (ChunkHashes md !! k)) /\
  (2 <= size (ChunkIDs md))%nat /\
  MalformedManifest md = (Encrypted md && bool_decide (Key md = EmptyString)).
Proof using Seal_length.
  intros Hs Hlen Hup Hch Hord.
  apply upload_Done_inv in Hup as (payload & uploads & Hfn & Hen & Hkey & Hmode & _ & _).
  assert (Hpl : Go.len payload <= 2 ^ 62).
  { destruct shouldEncrypt; [|destruct Hkey as [-> _]; lia].
    destruct Hkey as ((Hk & Hr & ->)%EncryptData_inv & _).
    unfold Go.len in *. rewrite length_app, Seal_length, length_take;
      [lia|done|rewrite length_take; lia]. }
  rewrite Hch in Hmode.
  destruct Hmode as (Hbig & _ & _ & chunks & Hsplit & _ & Hkeys & _).
  apply SplitIntoChunks_Returned_inv in Hsplit as [-> Hhashes]; [|done..].
  assert (Hsame : forall k, is_Some (ChunkIDs md !! k)
                            <-> is_Some (ChunkHashes md !! k)).
  { intros k. by rewrite Hkeys, (range_order_elem_of _ _ _ Hord). }
  assert (Hsize : (2 <= size (ChunkIDs md))%nat).
  { assert (size (ChunkIDs md) = size (ChunkHashes md)) as ->.
    { rewrite <- !size_dom. f_equal. apply set_eq. intros k.
      by rewrite !elem_of_dom. }
    rewrite Hhashes, expected_hashes_fmap, map_size_fmap.
    pose proof (expected_chunks_size payload chunkSizeBytes ltac:(lia) Hpl).
    pose proof (num_windows_bounds payload chunkSizeBytes ltac:(lia)). nia. }
  split; [done|]. split; [done|].
  unfold MalformedManifest. rewrite Hch.
  rewrite (bool_decide_eq_false_2 (ChunkIDs md = ∅)); [done|].
  intros Hempty. rewrite Hempty, map_size_empty in Hsize. lia.
Qed.

(** X11. A chunk size that is not positive, with a file that is not empty and
    not encrypted: with chunk size 0 the split never ends, with a negative
    chunk size it panics; either way nothing is uploaded. An empty file with
    a negative chunk size goes the chunked way without pieces, and the
    manifest [upload] then builds is chunked without piece references. *)
Theorem upload_nonpositive_chunk_size rnd fuel order filename
    (plaintext : bytes) chunkSizeBytes tr :
  Go.in_int chunkSizeBytes -> (0 < fuel)%nat ->
  (plaintext <> [] -> chunkSizeBytes = 0 ->
   the_upload rnd fuel order filename plaintext false chunkSizeBytes tr
   = (tr, Fatal NoFuel)) /\
  (plaintext <> [] -> chunkSizeBytes < 0 ->
   the_upload rnd fuel order filename plaintext false chunkSizeBytes tr
   = (tr, Fatal RuntimePanic)) /\
  (plaintext = [] -> chunkSizeBytes < 0 ->
   forall tr' md cid,
   the_upload rnd fuel [] filename plaintext false chunkSizeBytes tr
   = (tr', Done (md, cid)) ->
   Chunked md = true /\ ChunkIDs md = ∅ /\ MalformedManifest md = true /\
   tr' = tr ++ [EvUpload (json_text (Json.Marshal md))]).
Proof.
  intros Hint Hfuel.
  assert (Hlen : plaintext <> [] -> 0 < Go.len plaintext).
  { destruct plaintext; [done|]. unfold Go.len. simpl. lia. }
  split; [|split].
  - intros Hne ->. specialize (Hlen Hne). unfold upload. run_prog.
    destruct (Z.gtb_spec (Go.len plaintext) 0); [|lia].
    by rewrite SplitIntoChunks_zero_size.
  - intros Hne Hneg. specialize (Hlen Hne). unfold upload. run_prog.
    destruct (Z.gtb_spec (Go.len plaintext) chunkSizeBytes); [|lia].
    by rewrite SplitIntoChunks_nonpositive_panics.
  - intros -> Hneg tr' md cid. unfold upload. run_prog.
    change (Go.len (@nil Byte.byte)) with 0.
    destruct (Z.gtb_spec 0 chunkSizeBytes); [|lia].
    destruct fuel as [|fuel]; [lia|].
    change (SplitIntoChunks Sum256 (S fuel) [] chunkSizeBytes)
      with (Returned (∅ : gmap string bytes, ∅ : gmap string string)).
    cbn [upload_chunks]. run_prog.
    destruct (swarm_post _ _); [|done]. by intros [= <- <- <-].
Qed.

End CliMore.



Lemma sample_upload_Done :
  sample_upload = (sample_upload.1, Done (sample_metadata, EmptyString)).
Proof. vm_compute. reflexivity. Defined.

Lemma upload_Done_witness :
  exists payload uploads,
    Filename sample_metadata = "f"%string /\
    payload = [x01; x02; x03; x04; x05] /\
    sample_upload.1
    = [] ++ (EvUpload <$> uploads)
         ++ [EvUpload (no_text (Json.Marshal sample_metadata))].
Proof.
  destruct (upload_Done (aead := plain_gcm) (fun b => b) raw_EncodeToString
              no_text echo_post [] 4 ["3"; "1"; "2"]%string "f"
              [x01; x02; x03; x04; x05] false 2 [] _ _ _ sample_upload_Done)
    as (payload & uploads & Hfn & _ & [Hp _] & _ & Htr & _).
  exists payload, uploads. split; [exact Hfn|]. split; [exact Hp|exact Htr].
Defined.


Lemma upload_chunked_manifest_witness :
  (2 <= size (ChunkIDs sample_metadata))%nat.
Proof.
  refine (proj1 (proj2 (upload_chunked_manifest (aead := plain_gcm) (fun b => b)
    raw_EncodeToString no_text echo_post plain_Seal_length
    [] 4 ["3"; "1"; "2"]%string "f" [x01; x02; x03; x04; x05]
    false 2 [] sample_upload.1 sample_metadata EmptyString _ _
    sample_upload_Done _ _))).
  - unfold Go.int_max. lia.
  - vm_compute. discriminate.
  - reflexivity.
  - vm_compute. reflexivity.
Defined.

Lemma upload_nonpositive_chunk_size_witness :
  upload (aead := plain_gcm) (fun b => b) raw_EncodeToString no_text echo_post
    [] 1 [] "f" [x01] false 0 []
  = ([], Fatal NoFuel).
Proof.
  assert (Hint : Go.in_int 0) by (vm_compute; split; discriminate).
  assert (Hfuel : (0 < 1)%nat) by lia.
  apply (proj1 (upload_nonpositive_chunk_size (aead := plain_gcm) (fun b => b)
    raw_EncodeToString no_text echo_post [] 1 [] "f" [x01] 0 [] Hint Hfuel)).
  - discriminate.
  - reflexivity.
Defined.

Lemma sample_download_Done :
  download (aead := plain_gcm) (fun b => b) raw_DecodeString echo_get write_ok
    ["3"; "1"; "2"]%string ["1"; "3"; "2"]%string sample_metadata []
  = ((download (aead := plain_gcm) (fun b => b) raw_DecodeString echo_get
        write_ok ["3"; "1"; "2"]%string ["1"; "3"; "2"]%string
        sample_metadata []).1, Done tt).
Proof. vm_compute. reflexivity. Defined.

Lemma download_Done_witness :
  exists (refs : list string) (payload final : bytes),
    refs = (fun k => Go.index_string (ChunkIDs sample_metadata) k)
             <$> ["3"; "1"; "2"]%string /\
    final = payload.
Proof.
  destruct (download_Done (aead := plain_gcm) (fun b => b) raw_DecodeString
              echo_get write_ok sample_metadata ["3"; "1"; "2"]%string
              ["1"; "3"; "2"]%string [] _ sample_download_Done)
    as (refs & payload & final & _ & _ & [Hrefs _] & Hfinal).
  exists refs, payload, final. split; [exact Hrefs|exact Hfinal].
Defined.

(* ===================================================================== *)
(** * Digests in hexadecimal *)
(* ===================================================================== *)

Lemma hex_digit_code (n : N) :
  (n < 16)%N ->
  N_of_ascii (Go.hex_digit n) = if (n <? 10)%N then (48 + n)%N else (87 + n)%N.
Proof.
  intros Hn. unfold Go.hex_digit.
  destruct (N.ltb_spec n 10); apply N_ascii_embedding; lia.
Qed.

Lemma hex_digit_inj (n m : N) :
  (n < 16)%N -> (m < 16)%N -> Go.hex_digit n = Go.hex_digit m -> n = m.
Proof.
  intros Hn Hm E. apply (f_equal N_of_ascii) in E.
  rewrite !hex_digit_code in E by done.
  destruct (N.ltb_spec n 10), (N.ltb_spec m 10); lia.
Qed.

Lemma byte_to_N_inj (x y : Byte.byte) : Byte.to_N x = Byte.to_N y -> x = y.
Proof.
  intros E. pose proof (Byte.of_to_N x) as Hx. pose proof (Byte.of_to_N y) as Hy.
  rewrite E in Hx. congruence.
Qed.

(** Two byte strings with the same [%x] text are equal: comparing the
    texts of two digests is comparing the digests. *)
Lemma Sprintf_x_inj (b1 b2 : bytes) :
  Go.Sprintf_x b1 = Go.Sprintf_x b2 -> b1 = b2.
Proof.
  revert b2. induction b1 as [|x b1 IH]; intros [|y b2]; cbn; try done.
  intros [= Hq Hr E]. f_equal; [|by apply IH].
  apply byte_to_N_inj.
  pose proof (Byte.to_N_bounded x). pose proof (Byte.to_N_bounded y).
  apply hex_digit_inj in Hq;
    [|apply N.Div0.div_lt_upper_bound; lia|apply N.Div0.div_lt_upper_bound; lia].
  apply hex_digit_inj in Hr; [|apply N.mod_lt; lia|apply N.mod_lt; lia].
  rewrite (N.div_mod (Byte.to_N x) 16), (N.div_mod (Byte.to_N y) 16) by lia.
  congruence.
Qed.

Section Integrity.

Context {aead : GCM}.
Variable Sum256 : bytes -> bytes.
Variable base64_DecodeString : string -> result bytes.
Variable swarm_get : list event -> string -> result bytes.
Variable os_WriteFile : list event -> string -> bytes -> option error.

Local Abbreviation the_download :=
  (download Sum256 base64_DecodeString swarm_get os_WriteFile).

(** X12. A part whose digest is not the recorded one is never written.
    If the manifest records the [%x] text of [h] for the piece [k] (or for
    the whole file), and whatever the gateway hands out under that
    reference has another digest, then the download stops before any
    write: a chunked run stops inside the piece loop after fetching a
    beginning of the keys, with a failed fetch or a failed integrity
    check; an unchunked run stops after its one fetch, with a failed
    fetch or the failed file integrity check. *)
Theorem download_rejects_wrong_digest (metadata : Metadata)
    (order order' : list string) (tr : list event) (k : string) (h : bytes) :
  (if Chunked metadata
   then k ∈ order /\
        ChunkHashes metadata !! k = Some (Go.Sprintf_x h) /\
        forall t d, swarm_get t (Go.index_string (ChunkIDs metadata) k) = Ok d ->
                    Sum256 d <> h
   else FileHash metadata = Go.Sprintf_x h /\
        forall t d, swarm_get t (FileID metadata) = Ok d -> Sum256 d <> h) ->
  exists keys f,
    the_download order order' metadata tr
    = (tr ++ (EvFetch <$> keys), Fatal f) /\
    (if Chunked metadata
     then exists done_ k',
            done_ ++ [k'] `prefix_of` order /\
            keys = (fun k => Go.index_string (ChunkIDs metadata) k)
                     <$> (done_ ++ [k']) /\
            ((exists e, f = FailedToDownloadChunk k' e) \/
             f = ChunkIntegrityFailed k')
     else keys = [FileID metadata] /\
          ((exists e, f = FailedToDownloadFile e) \/ f = FileIntegrityFailed)).
Proof.
  intros Hbad. unfold download. destruct (Chunked metadata) eqn:Hch.
  - destruct Hbad as (Hk & Hrec & Hbad).
    destruct (download_chunks Sum256 swarm_get order metadata ∅ tr)
      as [tr1 [chunks|f]] eqn:Hc.
    + exfalso.
      apply download_chunks_Done in Hc as (_ & Hgood & Hkeys & Hfrom).
      destruct (Hgood k) as (d & Hd & Hv); [by left|].
      destruct (Hfrom k d Hd) as [He|[t Ht]]; [by rewrite lookup_empty in He|].
      apply (Hbad t d Ht). apply Sprintf_x_inj.
      unfold Go.index_string in Hv. rewrite Hrec in Hv. by cbn in Hv.
    + pose proof Hc as Hf.
      apply download_chunks_Fatal in Hf as (done_ & k' & Hpre & -> & Hf).
      exists ((fun k => Go.index_string (ChunkIDs metadata) k) <$> (done_ ++ [k'])), f.
      split.
      * run_prog. rewrite Hc. by rewrite <- list_fmap_compose.
      * by exists done_, k'.
  - destruct Hbad as (Hrec & Hbad). run_prog.
    destruct (swarm_get tr (FileID metadata)) as [d|e] eqn:Hget.
    + case_decide as Hv.
      * exists [FileID metadata], FileIntegrityFailed. split; [done|]. split; [done|by right].
      * exfalso. try apply dec_stable in Hv. apply (Hbad tr d Hget).
        apply Sprintf_x_inj. congruence.
    + exists [FileID metadata], (FailedToDownloadFile e).
      split; [done|]. split; [done|left; by eexists].
Qed.

End Integrity.

Lemma download_rejects_wrong_digest_witness :
  exists keys f,
    download (aead := plain_gcm) (fun b => b) raw_DecodeString
      (fun _ _ => Ok [x01]) write_ok [] []
      {| Filename := "f"; Encrypted := false; Key := ""; Chunked := false;
         FileID := "r"; ChunkIDs := ∅; ChunkHashes := ∅;
         FileHash := Go.Sprintf_x [x02] |} []
    = ([] ++ (EvFetch <$> keys), Fatal f) /\
    keys = ["r"%string] /\
    ((exists e, f = FailedToDownloadFile e) \/ f = FileIntegrityFailed).
Proof.
  apply (download_rejects_wrong_digest (aead := plain_gcm) (fun b => b)
           raw_DecodeString (fun _ _ => Ok [x01]) write_ok
           {| Filename := "f"; Encrypted := false; Key := ""; Chunked := false;
              FileID := "r"; ChunkIDs := ∅; ChunkHashes := ∅;
              FileHash := Go.Sprintf_x [x02] |} [] [] [] "" [x02]).
  cbn. split; [reflexivity|]. intros _ d [= <-]. discriminate.
Defined.

(* ===================================================================== *)
(** * The arguments of [upload] *)
(* ===================================================================== *)

Lemma hasFlag_elem_of (args : list string) (flag : string) :
  hasFlag args flag = bool_decide (flag ∈ args).
Proof.
  induction args as [|a args IH]; cbn.
  - symmetry. apply bool_decide_eq_false. by intros ?%elem_of_nil.
  - destruct (String.eqb_spec a flag) as [->|Hne].
    + symmetry. apply bool_decide_eq_true. by left.
    + rewrite IH. apply bool_decide_ext. rewrite elem_of_cons.
      split; [auto|]. by intros [?|?].
Qed.

Lemma removeFlags_filter (args : list string) :
  removeFlags args = filter (fun a => Strs.HasPrefix a "--" = false) args.
Proof.
  unfold removeFlags.
  enough (forall clean,
    foldl (fun clean arg =>
             if negb (Strs.HasPrefix arg "--") then clean ++ [arg] else clean)
          clean args
    = clean ++ filter (fun a => Strs.HasPrefix a "--" = false) args) as H
    by apply (H []).
  induction args as [|a args IH]; intros clean; cbn [foldl].
  - by rewrite filter_nil, (right_id_L [] (++)).
  - rewrite IH, filter_cons. destruct (Strs.HasPrefix a "--") eqn:E; cbn.
    + by rewrite decide_False by done.
    + rewrite decide_True by done. by rewrite <- (assoc_L (++)).
Qed.

(** X13. How [upload] reads its arguments. After the program name and
    the word [upload], the file is the first argument that does not begin
    with two dashes, wherever the flags stand; further operands and
    unknown flags are ignored; without such an argument the usage line is
    printed and nothing is uploaded. [--no-encrypt] anywhere switches
    encryption off, also against [--encrypt]; otherwise [--encrypt]
    switches it on; otherwise the configuration decides. *)
Theorem upload_args_spec (EncryptDefault : bool) (execPath : string)
    (rest : list string) :
  Strs.HasPrefix execPath "--" = false ->
  upload_args EncryptDefault (execPath :: "upload"%string :: rest)
  = match filter (fun a => Strs.HasPrefix a "--" = false) rest with
    | [] => None
    | file :: _ =>
        Some (file,
              if bool_decide ("--no-encrypt"%string ∈ rest) then false
              else if bool_decide ("--encrypt"%string ∈ rest) then true
              else EncryptDefault)
    end.
Proof.
  intros Hexec. unfold upload_args.
  rewrite removeFlags_filter, !hasFlag_elem_of.
  rewrite filter_cons, decide_True by done.
  rewrite filter_cons, decide_True by done.
  assert (forall flag : string, Strs.HasPrefix flag "--" = true ->
            bool_decide (flag ∈ execPath :: "upload"%string :: rest)
            = bool_decide (flag ∈ rest)) as Hflag.
  { intros flag Hf. apply bool_decide_ext. rewrite !elem_of_cons.
    split; [|auto]. intros [->|[->|?]]; [congruence|discriminate|done]. }
  rewrite !Hflag by done.
  destruct (filter _ rest) as [|file files]; [done|].
  unfold Go.len. cbn [length nth].
  destruct (Z.ltb_spec (Z.of_nat (S (S (S (length files))))) 3); [lia|].
  by repeat case_bool_decide.
Qed.

Lemma upload_args_spec_witness :
  upload_args true ["final-ride-cli"; "upload"; "--encrypt"; "--fast"; "a.bin";
                    "--no-encrypt"; "b.bin"]%string
  = Some ("a.bin"%string, false).
Proof.
  rewrite (upload_args_spec true "final-ride-cli"
             ["--encrypt"; "--fast"; "a.bin"; "--no-encrypt"; "b.bin"]%string);
    reflexivity.
Defined.

(* ===================================================================== *)
(** * Members the manifest does not know *)
(* ===================================================================== *)

Lemma Unmarshal_foldl_Err (e : error) (members : list (string * Json.json)) :
  foldl (fun acc kv => md ← acc; Json.set_field md kv.1 kv.2) (Err e) members
  = Err e.
Proof. induction members as [|kv members IH]; [done|]. cbn [foldl]. apply IH. Qed.




(* ===================================================================== *)
(** * The chunk size in bytes *)
(* ===================================================================== *)

Lemma wrap_mul_wrap (a b : Z) : Go.wrap (Go.wrap a * b) = Go.wrap (a * b).
Proof.
  unfold Go.wrap. f_equal.
  replace ((a + 2 ^ 63) mod 2 ^ 64 - 2 ^ 63) with
    ((a + 2 ^ 63) mod 2 ^ 64 + (-1) * 2 ^ 63) by lia.
  rewrite <- (Z.add_mod_idemp_l (_ * b)) by lia.
  rewrite <- (Z.mul_mod_idemp_l _ b) by lia.
  rewrite <- (Z.add_mod_idemp_l ((a + 2 ^ 63) mod 2 ^ 64)) by lia.
  rewrite Z.mod_mod by lia.
  rewrite (Z.add_mod_idemp_l (a + 2 ^ 63)) by lia.
  rewrite (Z.mul_mod_idemp_l _ b) by lia.
  rewrite (Z.add_mod_idemp_l (_ * b)) by lia.
  f_equal. lia.
Qed.

(** X15. [config.ChunkSizeMB * 1024 * 1024] in 64-bit arithmetic is the
    product reduced once; for a size from 1 below 2^43 megabytes it is
    the exact product, positive and an [int], which is what the round trip
    of upload and download asks of the chunk size; a size of 0 (the value
    of a configuration without [chunk_size_mb]) and 2^44 give 0, and 2^43
    gives the least [int], a negative chunk size. *)
Theorem chunkSizeBytes_of_spec (ChunkSizeMB : Z) :
  chunkSizeBytes_of ChunkSizeMB = Go.wrap (ChunkSizeMB * 1048576) /\
  (0 < ChunkSizeMB < 2 ^ 43 ->
   chunkSizeBytes_of ChunkSizeMB = ChunkSizeMB * 1048576 /\
   0 < chunkSizeBytes_of ChunkSizeMB <= Go.int_max) /\
  chunkSizeBytes_of 0 = 0 /\
  chunkSizeBytes_of (2 ^ 44) = 0 /\
  chunkSizeBytes_of (2 ^ 43) = Go.int_min.
Proof.
  assert (chunkSizeBytes_of ChunkSizeMB = Go.wrap (ChunkSizeMB * 1048576)) as E.
  { unfold chunkSizeBytes_of. rewrite wrap_mul_wrap. f_equal. lia. }
  split; [done|]. split; [|by vm_compute].
  intros Hmb. rewrite E. unfold Go.wrap, Go.int_max.
  rewrite Z.mod_small by lia. lia.
Qed.

Lemma chunkSizeBytes_of_spec_witness :
  chunkSizeBytes_of 10 = 10485760 /\ 0 < chunkSizeBytes_of 10 <= Go.int_max.
Proof.
  apply (proj1 (proj2 (chunkSizeBytes_of_spec 10))). lia.
Defined.

(* ===================================================================== *)
(** * The reference out of a pasted link *)
(* ===================================================================== *)

Lemma string_app_nil_l (a : string) : "" +:+ a = a.
Proof. reflexivity. Qed.

Lemma string_app_cons (x : ascii) (a b : string) :
  String x a +:+ b = String x (a +:+ b).
Proof. reflexivity. Qed.

Lemma string_app_assoc (a b c : string) : (a +:+ b) +:+ c = a +:+ (b +:+ c).
Proof.
  induction a as [|x a IH]; [done|]. rewrite !string_app_cons. by f_equal.
Qed.

Lemma string_app_nil_r (a : string) : a +:+ "" = a.
Proof.
  induction a as [|x a IH]; [done|]. rewrite string_app_cons. by f_equal.
Qed.

Lemma string_app_length (a b : string) :
  String.length (a +:+ b) = (String.length a + String.length b)%nat.
Proof.
  induction a as [|x a IH]; [done|]. rewrite string_app_cons. cbn. by f_equal.
Qed.

(** [HasPrefix s p] holds exactly of the strings that begin with [p]. *)
Lemma HasPrefix_spec (s p : string) :
  Strs.HasPrefix s p = true <-> exists r, s = p +:+ r.
Proof.
  unfold Strs.HasPrefix. revert s. induction p as [|a p IH]; intros s.
  - destruct s; cbn; split; eauto.
  - destruct s as [|b s]; cbn.
    + split; [done|]. by intros [r ?].
    + destruct (ascii_dec a b) as [->|Hne].
      * rewrite IH. split; intros [r Hr]; exists r.
        -- rewrite string_app_cons. congruence.
        -- rewrite string_app_cons in Hr. congruence.
      * split; [done|]. intros [r Hr]. rewrite string_app_cons in Hr. congruence.
Qed.

Lemma skip_app (p s : string) : Strs.skip (String.length p) (p +:+ s) = s.
Proof.
  induction p as [|a p IH]; [by destruct s|]. by rewrite string_app_cons.
Qed.

(** Where two ways of writing a string as two parts meet. *)
Lemma string_app_eq_app (u w p r : string) :
  u +:+ w = p +:+ r ->
  (exists r', u = p +:+ r') \/
  (exists p2, p2 <> EmptyString /\ p = u +:+ p2 /\ w = p2 +:+ r).
Proof.
  revert p. induction u as [|a u IH]; intros p.
  - rewrite string_app_nil_l. intros ->.
    destruct p as [|b p]; [left; by exists EmptyString|].
    right. by exists (String b p).
  - destruct p as [|b p]; [left; by eexists|]. rewrite !string_app_cons.
    intros [= -> [[r' ->]|(p2 & Hp2 & -> & ->)]%IH].
    + left. by exists r'.
    + right. by exists p2.
Qed.

Lemma cut_eq (s sep : string) :
  Strs.cut s sep
  = if Strs.HasPrefix s sep
    then Some (EmptyString, Strs.skip (String.length sep) s)
    else match s with
         | EmptyString => None
         | String c s' =>
             match Strs.cut s' sep with
             | Some (before, after) => Some (String c before, after)
             | None => None
             end
         end.
Proof. by destruct s. Qed.

Lemma cut_None_inv (c : ascii) (s sep : string) :
  Strs.cut (String c s) sep = None ->
  Strs.HasPrefix (String c s) sep = false /\ Strs.cut s sep = None.
Proof.
  rewrite cut_eq. destruct (Strs.HasPrefix (String c s) sep); [done|].
  destruct (Strs.cut s sep) as [[? ?]|]; done.
Qed.

(** The first separator is found where it stands, when the text before
    it, taken with the separator, holds no earlier one. *)
Lemma cut_found (pre sep rest : string) :
  Strs.cut (pre +:+ sep) sep = Some (pre, EmptyString) ->
  Strs.cut (pre +:+ sep +:+ rest) sep = Some (pre, rest).
Proof.
  induction pre as [|c pre IH].
  - intros _. rewrite string_app_nil_l, cut_eq.
    assert (Strs.HasPrefix (sep +:+ rest) sep = true) as ->
      by (apply HasPrefix_spec; by eexists).
    by rewrite skip_app.
  - rewrite !string_app_cons, (cut_eq (String c (pre +:+ sep))).
    destruct (Strs.HasPrefix (String c (pre +:+ sep)) sep) eqn:Hp; [done|].
    destruct (Strs.cut (pre +:+ sep) sep) as [[b a]|] eqn:Hc; [|done].
    intros [= -> ->]. rewrite cut_eq, IH by done.
    destruct (Strs.HasPrefix (String c (pre +:+ sep +:+ rest)) sep) eqn:Hp';
      [|done].
    exfalso. apply HasPrefix_spec in Hp' as [r Hr].
    rewrite <- string_app_cons, <- string_app_assoc in Hr.
    apply string_app_eq_app in Hr as [[r' Hr']|(p2 & Hp2 & Hsep & _)].
    + rewrite string_app_cons in Hr'.
      assert (Strs.HasPrefix (String c (pre +:+ sep)) sep = true)
        by (apply HasPrefix_spec; by exists r').
      congruence.
    + apply (f_equal String.length) in Hsep.
      rewrite !string_app_length in Hsep. cbn in Hsep.
      destruct p2; [done|cbn in Hsep; lia].
Qed.

(** A separator of one letter that the text does not hold is found right
    behind the text. *)
Lemma cut_letter (s : string) (a : ascii) (rest : string) :
  Strs.cut s (String a EmptyString) = None ->
  Strs.cut (s +:+ String a rest) (String a EmptyString) = Some (s, rest).
Proof.
  intros Hs. change (String a rest) with (String a EmptyString +:+ rest).
  apply cut_found. induction s as [|c s IH].
  - rewrite string_app_nil_l. cbn. destruct (ascii_dec a a); [done|congruence].
  - apply cut_None_inv in Hs as [Hp Hs]. rewrite string_app_cons, cut_eq.
    assert (Strs.HasPrefix (String c (s +:+ String a EmptyString))
              (String a EmptyString) = false) as ->.
    { unfold Strs.HasPrefix in *. cbn in *.
      destruct (ascii_dec a c); [by destruct s|done]. }
    by rewrite IH.
Qed.

(** The first part of a split. *)
Lemma Split_head (s sep : string) :
  nth 0 (Strs.Split s sep) EmptyString
  = match Strs.cut s sep with Some (before, _) => before | None => s end.
Proof.
  unfold Strs.Split. destruct s as [|c s]; cbn [String.length Strs.Split_loop].
  - destruct sep; cbn; done.
  - by destruct (Strs.cut (String c s) sep) as [[? ?]|].
Qed.

Lemma Split_loop_head (fuel : nat) (s sep : string) :
  (0 < fuel)%nat ->
  nth 0 (Strs.Split_loop fuel s sep) EmptyString
  = match Strs.cut s sep with Some (before, _) => before | None => s end.
Proof.
  destruct fuel; [lia|]. intros _. cbn [Strs.Split_loop].
  by destruct (Strs.cut s sep) as [[? ?]|].
Qed.

Lemma Split_loop_length (fuel : nat) (s sep : string) :
  (1 <= length (Strs.Split_loop fuel s sep))%nat.
Proof.
  destruct fuel; cbn; [lia|]. destruct (Strs.cut s sep) as [[? ?]|]; cbn; lia.
Qed.

(** No letter of [download=] is an ampersand, and [download=] does not
    begin again inside itself. *)
Lemma download_sep_no_amp (u p2 : string) :
  "download="%string = u +:+ p2 -> p2 <> EmptyString ->
  forall z w, String "&" z <> p2 +:+ w.
Proof.
  intros E Hp2.
  do 9 (destruct u as [|? u];
        [rewrite string_app_nil_l in E; subst p2; intros z w H;
         rewrite string_app_cons in H; discriminate
        |rewrite string_app_cons in E; injection E as <- E]).
  destruct u; [rewrite string_app_nil_l in E; by subst p2|].
  by rewrite string_app_cons in E.
Qed.

Lemma download_sep_no_border (u p2 r : string) :
  "download="%string = u +:+ p2 -> p2 <> EmptyString -> u <> EmptyString ->
  "download="%string <> p2 +:+ r.
Proof.
  intros E Hp2 Hu. destruct u as [|? u]; [done|].
  rewrite string_app_cons in E. injection E as <- E.
  do 8 (destruct u as [|? u];
        [rewrite string_app_nil_l in E; subst p2; intros H;
         rewrite !string_app_cons in H; discriminate
        |rewrite string_app_cons in E; injection E as <- E]).
  destruct u; [rewrite string_app_nil_l in E; by subst p2|].
  by rewrite string_app_cons in E.
Qed.

(** A text without [download=], followed by [download=], has its first
    [download=] at its end. *)
Lemma cut_download_end (pre : string) :
  Strs.cut pre "download=" = None ->
  Strs.cut (pre +:+ "download=") "download=" = Some (pre, EmptyString).
Proof.
  induction pre as [|c pre IH]; [done|].
  intros [Hp Hs]%cut_None_inv. rewrite string_app_cons, cut_eq.
  destruct (Strs.HasPrefix (String c (pre +:+ "download=")) "download=") eqn:Hp'.
  - exfalso. apply HasPrefix_spec in Hp' as [r Hr].
    rewrite <- string_app_cons in Hr.
    apply string_app_eq_app in Hr as [[r' Hr']|(p2 & Hp2 & Hsep & Hw)].
    + assert (Strs.HasPrefix (String c pre) "download=" = true)
        by (apply HasPrefix_spec; by exists r').
      congruence.
    + by apply (download_sep_no_border (String c pre) p2 r).
  - by rewrite IH.
Qed.

(** A text without [download=] followed by an ampersand: the first
    [download=], if there is one, stands behind the ampersand. *)
Lemma cut_download_behind_amp (cid z : string) :
  Strs.cut cid "download=" = None ->
  match Strs.cut (cid +:+ String "&" z) "download=" with
  | Some (before, _) => exists x, before = cid +:+ String "&" x
  | None => True
  end.
Proof.
  induction cid as [|c cid IH].
  - intros _. rewrite string_app_nil_l, cut_eq.
    change (Strs.HasPrefix (String "&" z) "download=") with false. cbn iota.
    destruct (Strs.cut z "download=") as [[b a]|]; [by exists b|done].
  - intros [Hp Hs]%cut_None_inv. rewrite string_app_cons, cut_eq.
    destruct (Strs.HasPrefix (String c (cid +:+ String "&" z)) "download=") eqn:Hp'.
    + exfalso. apply HasPrefix_spec in Hp' as [r Hr].
      rewrite <- string_app_cons in Hr.
      apply string_app_eq_app in Hr as [[r' Hr']|(p2 & Hp2 & Hsep & Hw)].
      * assert (Strs.HasPrefix (String c cid) "download=" = true)
          by (apply HasPrefix_spec; by exists r').
        congruence.
      * by apply (download_sep_no_amp (String c cid) p2 Hsep Hp2) in Hw.
    + specialize (IH Hs).
      destruct (Strs.cut (cid +:+ String "&" z) "download=") as [[b a]|]; [|done].
      destruct IH as [x ->]. exists x. by rewrite string_app_cons.
Qed.

(** X16. The reference comes back out of a link. An argument without
    [download=] is taken as it is. From a link that holds the reference
    behind its first [download=], the reference ending at the end of the
    link or at an ampersand, [download] takes the reference, whenever the
    reference itself holds neither [download=] nor an ampersand (a Swarm
    reference is hexadecimal). *)
Theorem extract_cid_link (pre cid post : string) :
  Strs.Contains pre "download=" = false ->
  Strs.Contains cid "download=" = false ->
  Strs.Contains cid "&" = false ->
  post = EmptyString \/ (exists z, post = String "&" z) ->
  extract_cid cid = cid /\
  extract_cid (pre +:+ "download=" +:+ cid +:+ post) = cid.
Proof.
  unfold Strs.Contains. intros Hpre Hcid Hamp Hpost.
  destruct (Strs.cut pre "download=") as [[? ?]|] eqn:Epre; [done|].
  destruct (Strs.cut cid "download=") as [[? ?]|] eqn:Ecid; [done|].
  destruct (Strs.cut cid "&") as [[? ?]|] eqn:Eamp; [done|].
  split.
  { unfold extract_cid, Strs.Contains. by rewrite Ecid. }
  pose proof (cut_found pre "download=" (cid +:+ post)
                (cut_download_end pre Epre)) as Hcut.
  assert (exists fuel,
            (0 < fuel)%nat /\
            Strs.Split (pre +:+ "download=" +:+ cid +:+ post) "download="
            = pre :: Strs.Split_loop fuel (cid +:+ post) "download=")
    as (fuel & Hfuel & Hsplit).
  { unfold Strs.Split.
    destruct (String.length (pre +:+ "download=" +:+ cid +:+ post))
      as [|fuel] eqn:Hlen;
      rewrite !string_app_length in Hlen; cbn in Hlen; [lia|].
    exists fuel. split; [lia|]. cbn [Strs.Split_loop]. by rewrite Hcut. }
  unfold extract_cid, Strs.Contains. rewrite Hcut, Hsplit.
  unfold Go.len. cbn [length nth].
  pose proof (Split_loop_length fuel (cid +:+ post) "download=").
  destruct (Z.gtb_spec (Z.of_nat (S (length (Strs.Split_loop fuel (cid +:+ post)
                                                "download=")))) 1); [|lia].
  rewrite Split_head, Split_loop_head by done.
  destruct Hpost as [->|[z ->]].
  - rewrite string_app_nil_r, Ecid. by rewrite Eamp.
  - pose proof (cut_download_behind_amp cid z Ecid) as Hb.
    destruct (Strs.cut (cid +:+ String "&" z) "download=") as [[b a]|].
    + destruct Hb as [x ->]. by rewrite cut_letter.
    + by rewrite cut_letter.
Qed.

Lemma extract_cid_link_witness :
  extract_cid "c0ffee" = "c0ffee"%string /\
  extract_cid
    ("http://localhost:8080/index.html?" +:+ "download=" +:+ "c0ffee" +:+ "&x=1")
  = "c0ffee"%string.
Proof.
  apply (extract_cid_link "http://localhost:8080/index.html?" "c0ffee" "&x=1");
    [reflexivity|reflexivity|reflexivity|right; by eexists].
Defined.

(* ===================================================================== *)
(** * The gateway calls *)
(* ===================================================================== *)


Section GatewayMore.

Variable http_Post : string -> string -> bytes -> result Swarm.Response.
Variable http_Get : string -> result Swarm.Response.
Variable json_value : bytes -> result Json.json.


(** X18. What [DownloadFromSwarm] makes of the answer: the body is
    returned exactly when the GET of [apiEndpoint/bzz/reference] is
    answered [200 OK] and the body can be read to its end; any other
    status is an error, also [201] and also with a readable body. *)
Theorem DownloadFromSwarm_Ok_iff (reference apiEndpoint : string) (data : bytes) :
  (Swarm.DownloadFromSwarm http_Get reference apiEndpoint = Ok data
   <-> exists resp,
         http_Get (apiEndpoint +:+ "/bzz/" +:+ reference) = Ok resp /\
         Swarm.StatusCode resp = 200 /\ Swarm.Body resp = Ok data) /\
  (forall resp,
     http_Get (apiEndpoint +:+ "/bzz/" +:+ reference) = Ok resp ->
     Swarm.StatusCode resp <> 200 ->
     Swarm.DownloadFromSwarm http_Get reference apiEndpoint = Err ErrSwarm).
Proof.
  unfold Swarm.DownloadFromSwarm, Swarm.StatusOK. split.
  - destruct (http_Get _) as [resp|e]; cbn.
    + destruct (Z.eqb_spec (Swarm.StatusCode resp) 200) as [Hst|Hst]; cbn.
      * destruct (Swarm.Body resp) as [d|e] eqn:Hb; cbn.
        -- split; [intros [= <-]; by exists resp|].
           intros (resp' & [= <-] & _ & Hd). congruence.
        -- split; [done|]. intros (resp' & [= <-] & _ & Hd). congruence.
      * split; [done|]. intros (resp' & [= <-] & ? & _). done.
    + split; [done|]. by intros (resp' & ? & _).
  - intros resp -> Hst. cbn.
    by destruct (Z.eqb_spec (Swarm.StatusCode resp) 200).
Qed.

End GatewayMore.


Lemma DownloadFromSwarm_Ok_iff_witness :
  Swarm.DownloadFromSwarm get_not_found "c0ffee" "http://localhost:1633"
  = Err ErrSwarm.
Proof.
  apply (proj2 (DownloadFromSwarm_Ok_iff get_not_found "c0ffee"
                  "http://localhost:1633" [])
           {| Swarm.StatusCode := 404; Swarm.Body := Ok [] |});
    [reflexivity|discriminate].
Defined.

(* ===================================================================== *)
(** * Uploads that fail *)
(* ===================================================================== *)

Section UploadFails.

Context {aead : GCM}.
Variable Sum256 : bytes -> bytes.
Variable base64_EncodeToString : bytes -> string.
Variable json_text : Json.json -> bytes.
Variable swarm_post : list event -> bytes -> result string.

Local Abbreviation the_upload :=
  (upload Sum256 base64_EncodeToString json_text swarm_post).
Local Abbreviation the_upload_chunks := (upload_chunks swarm_post).

Lemma accepted_nil tr : accepted swarm_post tr [].
Proof. intros [|? ?] ? ? ?; done. Qed.

Lemma accepted_cons tr (x : bytes) l reference :
  swarm_post tr x = Ok reference ->
  accepted swarm_post (tr ++ [EvUpload x]) l ->
  accepted swarm_post tr (x :: l).
Proof.
  intros Hx Hl [|y before] data after.
  - intros [= <- <-]. rewrite fmap_nil, (right_id_L [] (++)). by eexists.
  - intros [= <- ->]. destruct (Hl before data after eq_refl) as [r Hr].
    exists r. rewrite <- (assoc_L (++)) in Hr. by rewrite fmap_cons.
Qed.

(** The piece loop of [upload]: it goes through the keys in order until
    an upload is refused. *)
Lemma upload_chunks_run order (chunks : gmap string bytes) : forall acc tr,
  (exists ids,
     the_upload_chunks order chunks acc tr
     = (tr ++ (EvUpload <$> ((fun k => Go.index_bytes chunks k) <$> order)),
        Done ids) /\
     accepted swarm_post tr ((fun k => Go.index_bytes chunks k) <$> order)) \/
  (exists done_ k rest e,
     order = done_ ++ k :: rest /\
     the_upload_chunks order chunks acc tr
     = (tr ++ (EvUpload <$> ((fun k => Go.index_bytes chunks k) <$> done_))
           ++ [EvUpload (Go.index_bytes chunks k)],
        Fatal (FailedToUploadChunk k e)) /\
     accepted swarm_post tr ((fun k => Go.index_bytes chunks k) <$> done_) /\
     swarm_post (tr ++ (EvUpload <$> ((fun k => Go.index_bytes chunks k) <$> done_)))
                (Go.index_bytes chunks k) = Err e).
Proof.
  induction order as [|k0 order IH]; intros acc tr; cbn [upload_chunks]; run_prog.
  - left. exists acc. rewrite !fmap_nil, (right_id_L [] (++)).
    split; [done|apply accepted_nil].
  - destruct (swarm_post tr (Go.index_bytes chunks k0)) as [ref0|e] eqn:Hpost.
    + destruct (IH (<[k0:=ref0]> acc) (tr ++ [EvUpload (Go.index_bytes chunks k0)]))
        as [(ids & Hrun & Hacc)|(done_ & k & rest & e & -> & Hrun & Hacc & He)].
      * left. exists ids. rewrite Hrun, !fmap_cons, <- (assoc_L (++)).
        split; [done|]. by eapply accepted_cons.
      * right. exists (k0 :: done_), k, rest, e. rewrite Hrun.
        rewrite !fmap_cons, <- !(assoc_L (++)). split; [done|]. split; [done|].
        split; [by eapply accepted_cons|].
        by rewrite <- (assoc_L (++)) in He.
    + right. exists [], k0, order, e. rewrite !fmap_nil, (right_id_L [] (++)).
      split; [done|]. split; [done|]. split; [apply accepted_nil|done].
Qed.

(** X19. An upload that fails has stopped at the failure. Either nothing
    was uploaded (the key could not be drawn, encryption failed, or the
    split panicked or never came to an end), or the last event is an upload
    the gateway refused, every upload before it was accepted, and the run
    names what was refused: a piece, the whole file (then it is the only
    upload) or the manifest. Nothing is uploaded after a refused upload;
    in particular no manifest is uploaded after a refused piece. *)
Theorem upload_Fatal rnd fuel order filename (plaintext : bytes)
    (shouldEncrypt : bool) chunkSizeBytes tr tr' f :
  the_upload rnd fuel order filename plaintext shouldEncrypt chunkSizeBytes tr
  = (tr', Fatal f) ->
  (tr' = tr /\
   (f = FailedToGenerateKey ErrEntropy \/ (exists e, f = EncryptionFailed e) \/
    f = RuntimePanic \/ f = NoFuel)) \/
  (exists (uploads : list bytes) (data : bytes) (e : error),
     tr' = tr ++ (EvUpload <$> uploads) ++ [EvUpload data] /\
     accepted swarm_post tr uploads /\
     swarm_post (tr ++ (EvUpload <$> uploads)) data = Err e /\
     ((exists k, f = FailedToUploadChunk k e) \/
      (f = FailedToUploadFile e /\ uploads = []) \/
      f = FailedToUploadMetadata e)).
Proof.
  unfold upload, GenerateKey, ReadFull. run_prog.
  set (second := fun (md0 : Metadata) (payload : bytes) =>
    (let (tr1, e) :=
       (if Go.len payload >? chunkSizeBytes
        then match SplitIntoChunks Sum256 fuel payload chunkSizeBytes with
             | Returned (chunks, chunkHashes) =>
                 fun tr0 : list event =>
                   let (tr2, e) := the_upload_chunks order chunks ∅ tr0 in
                   match e with
                   | Done a =>
                       (tr2, Done {| Filename := Filename md0;
                                     Encrypted := Encrypted md0;
                                     Key := Key md0; Chunked := true;
                                     FileID := FileID md0; ChunkIDs := a;
                                     ChunkHashes := chunkHashes;
                                     FileHash := FileHash md0 |})
                   | Fatal f => (tr2, Fatal f)
                   end
             | Panicked => fun tr0 : list event => (tr0, Fatal RuntimePanic)
             | OutOfFuel => fun tr0 : list event => (tr0, Fatal NoFuel)
             end
        else fun tr0 : list event =>
               match swarm_post tr0 payload with
               | Ok fileID =>
                   fun tr2 : list event =>
                     (tr2, Done {| Filename := Filename md0;
                                   Encrypted := Encrypted md0;
                                   Key := Key md0; Chunked := false;
                                   FileID := fileID; ChunkIDs := ChunkIDs md0;
                                   ChunkHashes := ChunkHashes md0;
                                   FileHash := Go.Sprintf_x (Sum256 payload) |})
               | Err e => fun tr2 : list event => (tr2, Fatal (FailedToUploadFile e))
               end (tr0 ++ [EvUpload payload])) tr in
     match e with
     | Done a =>
         match swarm_post tr1 (json_text (Json.Marshal a)) with
         | Ok metadataCID => fun tr0 : list event => (tr0, Done (a, metadataCID))
         | Err e0 => fun tr0 : list event => (tr0, Fatal (FailedToUploadMetadata e0))
         end (tr1 ++ [EvUpload (json_text (Json.Marshal a))])
     | Fatal f => (tr1, Fatal f)
     end)).
  assert (Hsecond : forall md0 payload,
    second md0 payload = (tr', Fatal f) ->
    (tr' = tr /\ (f = RuntimePanic \/ f = NoFuel)) \/
    (exists (uploads : list bytes) (data : bytes) (e : error),
       tr' = tr ++ (EvUpload <$> uploads) ++ [EvUpload data] /\
       accepted swarm_post tr uploads /\
       swarm_post (tr ++ (EvUpload <$> uploads)) data = Err e /\
       ((exists k, f = FailedToUploadChunk k e) \/
        (f = FailedToUploadFile e /\ uploads = []) \/
        f = FailedToUploadMetadata e))).
  { intros md0 payload. unfold second.
    destruct (Go.len payload >? chunkSizeBytes).
    - destruct (SplitIntoChunks Sum256 fuel payload chunkSizeBytes)
        as [[chunks hashes]| |].
      + destruct (upload_chunks_run order chunks ∅ tr)
          as [(ids & -> & Hacc)|(done_ & k & rest & e & -> & -> & Hacc & He)].
        * cbv beta iota.
          destruct (swarm_post _ _) as [cid|e] eqn:Hmeta; cbv beta iota;
          [intros Hd; discriminate Hd|].
          intros [= <- <-]. right.
          eexists _, _, e. split; [by rewrite <- (assoc_L (++))|].
          split; [done|]. split; [done|]. by right; right.
        * cbv beta iota. intros [= <- <-]. right. eexists _, _, e.
          split; [done|]. split; [done|]. split; [done|]. left. by exists k.
      + intros [= <- <-]. left. auto.
      + intros [= <- <-]. left. auto.
    - destruct (swarm_post tr payload) as [fileID|e] eqn:Hpost.
      + cbv beta iota.
        destruct (swarm_post (tr ++ [EvUpload payload]) _) as [cid|e] eqn:Hmeta;
          cbv beta iota; [intros Hd; discriminate Hd|].
        intros [= <- <-]. right. eexists [payload], _, e.
        split; [by rewrite <- (assoc_L (++))|]. split.
        { eapply accepted_cons; [done|apply accepted_nil]. }
        split; [done|]. by right; right.
      + intros [= <- <-]. right. exists [], payload, e.
        split; [done|]. split; [apply accepted_nil|].
        split; [by rewrite fmap_nil, (right_id_L [] (++))|]. right; left. done. }
  destruct shouldEncrypt.
  - destruct (decide (32 <= length rnd)%nat) as [Hr|].
    + destruct (EncryptData (drop 32 rnd) plaintext (take 32 rnd))
        as [payload|e] eqn:He.
      * intros Hrun. apply Hsecond in Hrun as [[-> Hf]|Hrun]; [|by right].
        left. split; [done|]. destruct Hf; auto.
      * intros [= <- <-]. left. split; [done|]. right; left. by eexists.
    + intros [= <- <-]. left. split; [done|]. by left.
  - intros Hrun. apply Hsecond in Hrun as [[-> Hf]|Hrun]; [|by right].
    left. split; [done|]. destruct Hf; auto.
Qed.

End UploadFails.

Lemma upload_Fatal_witness :
  exists (uploads : list bytes) (data : bytes) (e : error),
    [EvUpload [x05]]
    = [] ++ (EvUpload <$> uploads) ++ [EvUpload data] /\
    accepted refuse_post [] uploads /\
    refuse_post ([] ++ (EvUpload <$> uploads)) data = Err e /\
    ((exists k, FailedToUploadChunk "3" ErrSwarm = FailedToUploadChunk k e) \/
     (FailedToUploadChunk "3" ErrSwarm = FailedToUploadFile e /\ uploads = []) \/
     FailedToUploadChunk "3" ErrSwarm = FailedToUploadMetadata e).
Proof.
  destruct (upload_Fatal (aead := plain_gcm) (fun b => b) raw_EncodeToString
              no_text refuse_post [] 4 ["3"; "1"; "2"]%string "f"
              [x01; x02; x03; x04; x05] false 2 []
              [EvUpload [x05]] (FailedToUploadChunk "3" ErrSwarm))
    as [[_ [Hf|[[e Hf]|[Hf|Hf]]]]|H];
    [vm_compute; reflexivity|discriminate..|exact H].
Defined.
